(** * Helio Workstation: the VCS revision item

    A shallow embedding of [Source/Core/VCS/RevisionItem.cpp] and of the
    parts of the JUCE value-tree API it is written against, followed by
    the properties of construction, payload lookup, flushing, importing
    and (de)serialization.  The byte and text helpers of
    [Source/Core/Serialization/LegacySerializer.cpp] and the page history of
    [Source/Core/Tree/TreeNavigationHistory.cpp] follow, each with its own
    properties.

    Conventions.
    - A [ValueTree] handle is identified with the content it refers to:
      the null handle is [invalidTree], any other handle is the node it
      points at.  No operation modelled here mutates a tree after it has
      been stored, so sharing is not observable.
    - A null pointer dereference is the result [None].
    - The [Pack] behind [Pack::Ptr] is shared by every item; it is passed
      and returned explicitly.
    - C++ [int] indices are [Z]; container sizes are assumed to fit. *)

From stdpp Require Import base option list strings gmap pretty.
From Stdlib Require Import ZArith.

Set Warnings "-register-all".

(** ** The JUCE containers and value trees used by the code

    JUCE is the library the application is built on.  Its value trees,
    variants and arrays are given here with the behaviour its
    documentation states for the calls that [RevisionItem.cpp] makes. *)

Module Juce.

Definition Identifier := string.

(** [juce::var], restricted to the alternatives a tree of this code can
    hold: nothing, an [int] (of 32 bits), an [int64], or a string.  The
    integer of a [var_int] is one that [isInt] below admits; a wider one
    is a [var_int64]. *)
Inductive var :=
| var_void
| var_int (z : Z)
| var_int64 (z : Z)
| var_string (s : string).

(** The values of a C++ [int], and the cut of a wider integer down to one:
    its low 32 bits, read as signed. *)
Definition isInt (z : Z) : Prop := (- 2 ^ 31 ≤ z < 2 ^ 31)%Z.
Definition wrapInt (z : Z) : Z := ((z + 2 ^ 31) mod 2 ^ 32 - 2 ^ 31)%Z.

(** Conversions between text and integers ([String (int)] and
    [String::getIntValue], which answers with an [int]) are taken as an
    interface. *)
Class StringApi := {
  String_fromInt : Z → string;
  String_getIntValue : string → Z
}.

(** [var::operator int]: an [int] as it is, an [int64] cut down to an
    [int]. *)
Definition var_toInt `{StringApi} (v : var) : Z :=
  match v with
  | var_void => 0%Z
  | var_int z => z
  | var_int64 z => wrapInt z
  | var_string s => String_getIntValue s
  end.

(** [var::toString], behind [var::operator String]. *)
Definition var_toString `{StringApi} (v : var) : string :=
  match v with
  | var_void => ""
  | var_int z => String_fromInt z
  | var_int64 z => String_fromInt z
  | var_string s => s
  end.

(** The object behind a valid handle: a type, named properties in
    insertion order, and children. *)
Inductive SharedObject :=
| Object (type : Identifier) (properties : list (Identifier * var))
         (children : list SharedObject).

Inductive ValueTree :=
| invalidTree
| validTree (o : SharedObject).

Definition objType (o : SharedObject) : Identifier :=
  match o with Object t _ _ => t end.
Definition objProperties (o : SharedObject) : list (Identifier * var) :=
  match o with Object _ ps _ => ps end.
Definition objChildren (o : SharedObject) : list SharedObject :=
  match o with Object _ _ cs => cs end.

(** [NamedValueSet::getVarPointer]. *)
Fixpoint NamedValueSet_get (ps : list (Identifier * var)) (name : Identifier)
  : option var :=
  match ps with
  | [] => None
  | (n, v) :: rest =>
      if decide (n = name) then Some v else NamedValueSet_get rest name
  end.

(** [NamedValueSet::set]: replace in place, or append. *)
Fixpoint NamedValueSet_set (ps : list (Identifier * var)) (name : Identifier)
    (v : var) : list (Identifier * var) :=
  match ps with
  | [] => [(name, v)]
  | (n, x) :: rest =>
      if decide (n = name) then (n, v) :: rest
      else (n, x) :: NamedValueSet_set rest name v
  end.

(** [ValueTree (const Identifier&)]. *)
Definition newTree (type : Identifier) : ValueTree :=
  validTree (Object type [] []).

Definition isValid (t : ValueTree) : bool :=
  match t with invalidTree => false | validTree _ => true end.

Definition hasType (t : ValueTree) (name : Identifier) : bool :=
  match t with
  | invalidTree => false
  | validTree o => bool_decide (objType o = name)
  end.

(** The children of a tree, as the range-for over a tree visits them. *)
Definition getChildren (t : ValueTree) : list ValueTree :=
  match t with
  | invalidTree => []
  | validTree o => validTree <$> objChildren o
  end.

Fixpoint findChild (cs : list SharedObject) (name : Identifier) : ValueTree :=
  match cs with
  | [] => invalidTree
  | c :: rest =>
      if decide (objType c = name) then validTree c else findChild rest name
  end.

Definition getChildWithName (t : ValueTree) (name : Identifier) : ValueTree :=
  match t with
  | invalidTree => invalidTree
  | validTree o => findChild (objChildren o) name
  end.

(** [getProperty (name, defaultValue)]. *)
Definition getProperty (t : ValueTree) (name : Identifier) (dflt : var) : var :=
  match t with
  | invalidTree => dflt
  | validTree o => default dflt (NamedValueSet_get (objProperties o) name)
  end.

(** [getProperty (name)]: a void var when there is none. *)
Definition getPropertyOrVoid (t : ValueTree) (name : Identifier) : var :=
  getProperty t name var_void.

(** [setProperty (name, value, nullptr)]; nothing happens on a null handle. *)
Definition setProperty (t : ValueTree) (name : Identifier) (v : var) : ValueTree :=
  match t with
  | invalidTree => invalidTree
  | validTree (Object ty ps cs) =>
      validTree (Object ty (NamedValueSet_set ps name v) cs)
  end.

(** [appendChild (child, nullptr)]; a null child is not added. *)
Definition appendChild (t child : ValueTree) : ValueTree :=
  match t, child with
  | validTree (Object ty ps cs), validTree c => validTree (Object ty ps (cs ++ [c]))
  | _, _ => t
  end.

(** [createCopy], on the content of a tree: a new object for every node,
    which shows what the node shows.  That the objects are new ones is
    the matter of [Sharing] below, where objects have addresses. *)
Fixpoint copyObject (o : SharedObject) : SharedObject :=
  match o with
  | Object ty ps cs => Object ty ps (map copyObject cs)
  end.

Definition createCopy (t : ValueTree) : ValueTree :=
  match t with
  | invalidTree => invalidTree
  | validTree o => validTree (copyObject o)
  end.

(** [Array<ValueTree>::operator[]]: a default-constructed (null) tree when
    the index is out of range. *)
Definition Array_get (a : list ValueTree) (i : Z) : ValueTree :=
  if (0 <=? i)%Z then default invalidTree (a !! Z.to_nat i) else invalidTree.

(** [Array::set]: replaces in range, appends beyond the end, and does
    nothing for a negative index. *)
Definition Array_set {A} (a : list A) (i : Z) (v : A) : list A :=
  if (i <? 0)%Z then a
  else if (i <? Z.of_nat (length a))%Z then <[Z.to_nat i := v]> a
  else a ++ [v].

Definition Array_size {A} (a : list A) : Z := Z.of_nat (length a).

(** [OwnedArray<T>::operator[]]: a null pointer when out of range. *)
Definition OwnedArray_get {A} (a : list A) (i : Z) : option A :=
  if (0 <=? i)%Z then a !! Z.to_nat i else None.

(** A counted loop [for (int i = 0; i < n; ++i) body], where the body
    may fail. *)
Definition forLoop {S} (n : nat) (body : nat → S → option S) (s : S) : option S :=
  foldl (λ acc i, acc ≫= body i) (Some s) (seq 0 n).

End Juce.

Import Juce.

(** ** The revision item and its collaborators *)

Module VCS.

(** A [Uuid] is identified with its text form, which is what the code
    compares and what is persisted. *)
Definition Uuid := string.

(** Modelled from the spec: the serialization keys of [SerializationKeys.h],
    which is not among the sources; section 6 names the node and its
    attributes. *)
Module Keys.
Definition revisionItem : Identifier := "revisionItem".
Definition vcsItemId : Identifier := "vcsUuid".
Definition revisionItemType : Identifier := "revisionItemType".
Definition revisionItemName : Identifier := "revisionItemName".
Definition revisionItemDiffLogic : Identifier := "revisionItemDiffLogic".
End Keys.

(** Modelled from the spec: [RevisionItem::Type], declared in
    [RevisionItem.h], which is not among the sources.  Section 6 gives the
    enumerators in the order Added = 0, Removed, Changed, Undefined.  A
    value of the enumeration is the integer it holds, as [static_cast]
    leaves it. *)
Definition ItemType := Z.
Definition Added : ItemType := 0%Z.
Definition Removed : ItemType := 1%Z.
Definition Changed : ItemType := 2%Z.
Definition Undefined : ItemType := 3%Z.

(** [Delta] ([Delta.h]); [Delta_new k] is the [k]-th [new Delta ({}, {})] of
    a call, whose identity is freshly generated. *)
Class DeltaApi := {
  Delta : Type;
  Delta_getUuid : Delta → Uuid;
  Delta_createCopy : Delta → Delta;
  Delta_new : nat → Delta;
  Delta_serialize : Delta → ValueTree;
  Delta_deserialize : Delta → ValueTree → Delta
}.

(** The virtual interface of a live [TrackedItem], as the copy constructor
    reads it.  [getDelta] may answer with a null pointer. *)
Record TrackedItem `{DeltaApi} := {
  ti_getVCSName : string;
  ti_getUuid : Uuid;
  ti_getNumDeltas : Z;
  ti_getDelta : Z → option Delta;
  ti_serializeDeltaData : Z → ValueTree
}.

(** [DiffLogic] and its two factories ([DiffLogic.h]); a factory may answer
    with a null pointer.  The item a logic is bound to is kept by reference
    only and plays no part here. *)
Class DiffLogicApi `{DeltaApi} := {
  DiffLogic : Type;
  DiffLogic_getType : DiffLogic → Identifier;
  createLogicFor : Identifier → option DiffLogic;
  createLogicCopy : TrackedItem → option DiffLogic
}.

(** [Pack] ([Pack.h]): the store of delta payloads. *)
Class PackApi := {
  Pack : Type;
  setDeltaDataFor : Pack → Uuid → Uuid → ValueTree → Pack;
  createDeltaDataFor : Pack → Uuid → Uuid → ValueTree
}.

(** The fields of a [RevisionItem]; [vcsUuid] is inherited from
    [TrackedItem], [logic] is a possibly null owning pointer. *)
Record RevisionItem `{DiffLogicApi} := {
  vcsUuid : Uuid;
  description : string;
  vcsItemType : ItemType;
  logic : option DiffLogic;
  deltas : list Delta;
  deltasData : list ValueTree
}.

Section Model.
Context `{StringApi} `{DiffLogicApi} `{PackApi}.

Definition with_vcsUuid (u : Uuid) (r : RevisionItem) : RevisionItem :=
  {| vcsUuid := u; description := description r; vcsItemType := vcsItemType r;
     logic := logic r; deltas := deltas r; deltasData := deltasData r |}.
Definition with_description (s : string) (r : RevisionItem) : RevisionItem :=
  {| vcsUuid := vcsUuid r; description := s; vcsItemType := vcsItemType r;
     logic := logic r; deltas := deltas r; deltasData := deltasData r |}.
Definition with_vcsItemType (t : ItemType) (r : RevisionItem) : RevisionItem :=
  {| vcsUuid := vcsUuid r; description := description r; vcsItemType := t;
     logic := logic r; deltas := deltas r; deltasData := deltasData r |}.
Definition with_logic (l : option DiffLogic) (r : RevisionItem) : RevisionItem :=
  {| vcsUuid := vcsUuid r; description := description r; vcsItemType := vcsItemType r;
     logic := l; deltas := deltas r; deltasData := deltasData r |}.
Definition with_deltas (ds : list Delta) (r : RevisionItem) : RevisionItem :=
  {| vcsUuid := vcsUuid r; description := description r; vcsItemType := vcsItemType r;
     logic := logic r; deltas := ds; deltasData := deltasData r |}.
Definition with_deltasData (vs : list ValueTree) (r : RevisionItem) : RevisionItem :=
  {| vcsUuid := vcsUuid r; description := description r; vcsItemType := vcsItemType r;
     logic := logic r; deltas := deltas r; deltasData := vs |}.

(** *** Construction *)

(** One turn of the copying loop of the constructor. *)
Definition copyDelta (t : TrackedItem) (i : nat) (r : RevisionItem)
  : option RevisionItem :=
  targetDelta ← ti_getDelta t (Z.of_nat i);
  Some (with_deltasData (deltasData r ++ [ti_serializeDeltaData t (Z.of_nat i)])
          (with_deltas (deltas r ++ [Delta_createCopy targetDelta]) r)).

(** [RevisionItem::RevisionItem (packPtr, type, targetToCopy)].  The pack
    pointer is the shared store; [freshUuid] is the identity a
    default-constructed [Uuid] member receives. *)
Definition RevisionItem_new (freshUuid : Uuid) (type : ItemType)
    (targetToCopy : option TrackedItem) : option RevisionItem :=
  let this :=
    {| vcsUuid := freshUuid; description := ""; vcsItemType := type;
       logic := None; deltas := []; deltasData := [] |} in
  match targetToCopy with
  | None => Some this
  | Some t =>
      let this := with_description (ti_getVCSName t) this in
      let this := with_vcsUuid (ti_getUuid t) this in
      let this := with_logic (createLogicCopy t) this in
      forLoop (Z.to_nat (ti_getNumDeltas t)) (copyDelta t) this
  end.

(** *** Accessors *)

Definition getUuid (r : RevisionItem) : Uuid := vcsUuid r.
Definition getType (r : RevisionItem) : ItemType := vcsItemType r.
Definition getVCSName (r : RevisionItem) : string := description r.
Definition getDiffLogic (r : RevisionItem) : option DiffLogic := logic r.
Definition getNumDeltas (r : RevisionItem) : Z := Array_size (deltas r).
Definition getDelta (r : RevisionItem) (index : Z) : option Delta :=
  OwnedArray_get (deltas r) index.

(** *** Payloads *)

(** A call of [Pack::setDeltaDataFor], as recorded in the trace of a flush. *)
Definition PackWrite : Type := Uuid * Uuid * ValueTree.

(** One turn of the loop of [flushData]: the state is the pack and the
    writes made so far. *)
Definition flushOne (r : RevisionItem) (i : nat) (st : Pack * list PackWrite)
  : option (Pack * list PackWrite) :=
  delta ← OwnedArray_get (deltas r) (Z.of_nat i);
  let data := Array_get (deltasData r) (Z.of_nat i) in
  Some (setDeltaDataFor st.1 (getUuid r) (Delta_getUuid delta) data,
        st.2 ++ [(getUuid r, Delta_getUuid delta, data)]).

(** [RevisionItem::flushData]: the pack after it, the writes it made, and
    the item. *)
Definition flushData (pack : Pack) (r : RevisionItem)
  : option (Pack * list PackWrite * RevisionItem) :=
  st ← forLoop (length (deltasData r)) (flushOne r) (pack, []);
  Some (st.1, st.2, with_deltasData [] r).

(** The [while] loop of [importDataForDelta], [k] turns of it. *)
Fixpoint addDummies (k : nat) (data : list ValueTree) : list ValueTree :=
  match k with
  | 0 => data
  | S k' => addDummies k' (data ++ [newTree "dummy"])
  end.

(** The scan of [importDataForDelta] from index [i] on, over the deltas
    not yet visited. *)
Fixpoint importScan (rest : list Delta) (i : nat) (deltaDataToCopy : ValueTree)
    (deltaUuid : string) (data : list ValueTree) : list ValueTree :=
  match rest with
  | [] => data
  | delta :: rest' =>
      if decide (Delta_getUuid delta = deltaUuid) then
        let data := addDummies (S i - length data) data in
        let deepCopy := createCopy deltaDataToCopy in
        Array_set data (Z.of_nat i) deepCopy
      else importScan rest' (S i) deltaDataToCopy deltaUuid data
  end.

(** [RevisionItem::importDataForDelta]. *)
Definition importDataForDelta (r : RevisionItem) (deltaDataToCopy : ValueTree)
    (deltaUuid : string) : RevisionItem :=
  with_deltasData
    (importScan (deltas r) 0 deltaDataToCopy deltaUuid (deltasData r)) r.

(** [RevisionItem::serializeDeltaData]. *)
Definition serializeDeltaData (pack : Pack) (r : RevisionItem) (deltaIndex : Z)
  : option ValueTree :=
  if (deltaIndex <? Array_size (deltasData r))%Z then
    Some (Array_get (deltasData r) deltaIndex)
  else
    delta ← OwnedArray_get (deltas r) deltaIndex;
    Some (createDeltaDataFor pack (getUuid r) (Delta_getUuid delta)).

(** *** Serialization *)

(** Modelled from the spec: [TrackedItem::serializeVCSUuid] and
    [TrackedItem::deserializeVCSUuid] of [TrackedItem.h], which is not among
    the sources; section 6 has the identity stored as an attribute of the
    node, and section 4.4 has it restored on load. *)
Definition serializeVCSUuid (r : RevisionItem) (tree : ValueTree) : ValueTree :=
  setProperty tree Keys.vcsItemId (var_string (getUuid r)).
Definition deserializeVCSUuid (r : RevisionItem) (tree : ValueTree) : RevisionItem :=
  with_vcsUuid
    (var_toString (getProperty tree Keys.vcsItemId (var_string (vcsUuid r)))) r.

(** [RevisionItem::serialize]; [None] when there is no logic to ask for its
    type. *)
Definition serialize (r : RevisionItem) : option ValueTree :=
  let tree := newTree Keys.revisionItem in
  let tree := serializeVCSUuid r tree in
  let tree := setProperty tree Keys.revisionItemType (var_int (getType r)) in
  let tree := setProperty tree Keys.revisionItemName (var_string (getVCSName r)) in
  l ← getDiffLogic r;
  let tree := setProperty tree Keys.revisionItemDiffLogic
                (var_string (DiffLogic_getType l)) in
  Some (foldl (λ tree delta, appendChild tree (Delta_serialize delta)) tree (deltas r)).

(** [RevisionItem::reset]. *)
Definition reset (r : RevisionItem) : RevisionItem :=
  with_vcsItemType Undefined (with_description "" (with_deltas [] r)).

(** The node [deserialize] reads from: the tree itself when it is a
    revision item, else its first child that is one. *)
Definition rootOf (tree : ValueTree) : ValueTree :=
  if hasType tree Keys.revisionItem then tree
  else getChildWithName tree Keys.revisionItem.

(** [RevisionItem::deserialize]. *)
Definition deserialize (r : RevisionItem) (tree : ValueTree) : RevisionItem :=
  let this := reset r in
  let root := rootOf tree in
  if negb (isValid root) then this
  else
    let this := deserializeVCSUuid this root in
    let this :=
      with_description
        (var_toString (getProperty root Keys.revisionItemName (var_string ""))) this in
    let type :=
      var_toInt (getProperty root Keys.revisionItemType (var_int Undefined)) in
    let this := with_vcsItemType type this in
    let logicType := var_toString (getPropertyOrVoid root Keys.revisionItemDiffLogic) in
    let this := with_logic (createLogicFor logicType) this in
    with_deltas
      (deltas this ++
         imap (λ k e, Delta_deserialize (Delta_new k) e) (getChildren root))
      this.

(** *** What the properties below ask of the collaborators *)

(** The pack reads back the last payload written under a key, and a write
    under one key leaves every other key as it was. *)
Definition PackReadsBack : Prop :=
  (∀ p item delta data,
     createDeltaDataFor (setDeltaDataFor p item delta data) item delta = data) ∧
  (∀ p item delta data item' delta',
     (item, delta) ≠ (item', delta') →
     createDeltaDataFor (setDeltaDataFor p item delta data) item' delta' =
     createDeltaDataFor p item' delta').

(** A delta serializes to a valid node from which its identity is read
    back, whatever delta the node is loaded into. *)
Definition DeltaRoundTrips (d : Delta) : Prop :=
  isValid (Delta_serialize d) = true ∧
  ∀ this, Delta_getUuid (Delta_deserialize this (Delta_serialize d)) = Delta_getUuid d.

(** The factory knows the type tag of a logic and answers with a logic of
    that type. *)
Definition LogicRoundTrips (l : DiffLogic) : Prop :=
  ∃ l', createLogicFor (DiffLogic_getType l) = Some l' ∧
        DiffLogic_getType l' = DiffLogic_getType l.

End Model.

End VCS.

(** ** The objects behind the payload trees

    A [ValueTree] is a counted reference to a shared object, and two trees
    of equal content may or may not be one object.  The model above works
    on the content of a tree.  The one below keeps with every object the
    address it lives at, and threads the allocator through the code that
    creates objects, so that a copy can be told from a second reference. *)

Module Sharing.
Import VCS.

Definition Address := nat.

(** An object with the address it lives at. *)
Inductive Cell :=
| CellAt (address : Address) (type : Identifier)
         (properties : list (Identifier * var)) (children : list Cell).

(** A [ValueTree] as a handle: null, or a reference to an object. *)
Inductive Handle :=
| nullHandle
| handleTo (c : Cell).

Fixpoint objectOf (c : Cell) : SharedObject :=
  match c with
  | CellAt _ ty ps cs => Object ty ps (map objectOf cs)
  end.

(** The tree a handle shows. *)
Definition content (h : Handle) : ValueTree :=
  match h with
  | nullHandle => invalidTree
  | handleTo c => validTree (objectOf c)
  end.

(** The addresses of the objects reached from a handle. *)
Fixpoint cellAddresses (c : Cell) : list Address :=
  match c with
  | CellAt a _ _ cs => a :: concat (map cellAddresses cs)
  end.

Definition addresses (h : Handle) : list Address :=
  match h with
  | nullHandle => []
  | handleTo c => cellAddresses c
  end.

(** The allocator is the next address it hands out; every address below it
    is in use.  [ValueTree (const Identifier&)] allocates one object. *)
Definition newTreeAt (type : Identifier) (next : Address) : Handle * Address :=
  (handleTo (CellAt next type [] []), S next).

(** The copy constructor of the shared object: a new object with the same
    type and properties, then a copy of every child in order. *)
Fixpoint copyCell (c : Cell) (next : Address) : Cell * Address :=
  match c with
  | CellAt _ ty ps cs =>
      let copied :=
        foldl (λ acc child,
                 let r := copyCell child acc.2 in (acc.1 ++ [r.1], r.2))
              ([], S next) cs in
      (CellAt next ty ps copied.1, copied.2)
  end.

(** [createCopy]: a handle to a copy of the object, or a null handle. *)
Definition createCopyAt (h : Handle) (next : Address) : Handle * Address :=
  match h with
  | nullHandle => (nullHandle, next)
  | handleTo c => let r := copyCell c next in (handleTo r.1, r.2)
  end.

(** [setProperty] through some handle to the object at address [a], as
    every handle from which that object is reached then shows it. *)
Fixpoint writeCell (a : Address) (name : Identifier) (v : var) (c : Cell) : Cell :=
  match c with
  | CellAt a' ty ps cs =>
      CellAt a' ty (if decide (a' = a) then NamedValueSet_set ps name v else ps)
             (map (writeCell a name v) cs)
  end.

Definition writeThrough (a : Address) (name : Identifier) (v : var) (h : Handle)
  : Handle :=
  match h with
  | nullHandle => nullHandle
  | handleTo c => handleTo (writeCell a name v c)
  end.

Section Scan.
Context `{DeltaApi}.

(** The [while] loop of [importDataForDelta], [k] turns of it: each turn
    allocates a tree of its own. *)
Fixpoint addDummiesAt (k : nat) (data : list Handle) (next : Address)
  : list Handle * Address :=
  match k with
  | 0 => (data, next)
  | S k' =>
      let dummy := newTreeAt "dummy" next in
      addDummiesAt k' (data ++ [dummy.1]) dummy.2
  end.

(** The scan of [importDataForDelta] from index [i] on, over the deltas
    not yet visited. *)
Fixpoint importScanAt (rest : list Delta) (i : nat) (deltaDataToCopy : Handle)
    (deltaUuid : string) (data : list Handle) (next : Address)
  : list Handle * Address :=
  match rest with
  | [] => (data, next)
  | delta :: rest' =>
      if decide (Delta_getUuid delta = deltaUuid) then
        let extended := addDummiesAt (S i - length data) data next in
        let deepCopy := createCopyAt deltaDataToCopy extended.2 in
        (Array_set extended.1 (Z.of_nat i) deepCopy.1, deepCopy.2)
      else importScanAt rest' (S i) deltaDataToCopy deltaUuid data next
  end.

(** [RevisionItem::importDataForDelta], on the handles of the pending
    payloads of an item with these deltas. *)
Definition importDataForDeltaAt (deltas : list Delta) (data : list Handle)
    (deltaDataToCopy : Handle) (deltaUuid : string) (next : Address)
  : list Handle * Address :=
  importScanAt deltas 0 deltaDataToCopy deltaUuid data next.

End Scan.

End Sharing.

(** ** A reference instance of the collaborators

    The collaborators of [RevisionItem] are not among the sources.  The
    instance below follows their description in the specification and is
    used to run the model on concrete inputs. *)

Module Reference.
Import VCS.

(** Decimal digits, for [String::getIntValue]. *)
Definition digitValue (c : Ascii.ascii) : option Z :=
  let n := Z.of_nat (Ascii.nat_of_ascii c) in
  if ((48 <=? n) && (n <=? 57))%Z then Some (n - 48)%Z else None.

Fixpoint parseDigits (s : string) (acc : Z) : Z :=
  match s with
  | EmptyString => acc
  | String c rest =>
      match digitValue c with
      | Some d => parseDigits rest (10 * acc + d)%Z
      | None => acc
      end
  end.

Definition getIntValue (s : string) : Z :=
  match s with
  | String c rest =>
      if decide (c = Ascii.ascii_of_nat 45) then (- parseDigits rest 0)%Z
      else parseDigits s 0%Z
  | EmptyString => 0%Z
  end.

#[export] Instance refString : StringApi :=
  {| String_fromInt := pretty; String_getIntValue := getIntValue |}.

(** Modelled from the spec: [Delta] of [Delta.h] and [Delta.cpp], which are
    not among the sources.  Section 3 gives it a stable id and a kind tag,
    section 4.1 has copies keep the id, and section 4.4 has it written to
    and rebuilt from a serialized form of its own. *)
Record RefDelta := { rd_id : Uuid; rd_kind : string }.

Definition refDelta_serialize (d : RefDelta) : ValueTree :=
  setProperty
    (setProperty (newTree "delta") "deltaType" (var_string (rd_kind d)))
    "deltaId" (var_string (rd_id d)).

Definition refDelta_deserialize (this : RefDelta) (e : ValueTree) : RefDelta :=
  {| rd_id := var_toString (getProperty e "deltaId" (var_string (rd_id this)));
     rd_kind := var_toString (getProperty e "deltaType" (var_string (rd_kind this))) |}.

#[export] Instance refDelta : DeltaApi :=
  {| Delta := RefDelta;
     Delta_getUuid := rd_id;
     Delta_createCopy := λ d, {| rd_id := rd_id d; rd_kind := rd_kind d |};
     Delta_new := λ k, {| rd_id := "new-" +:+ pretty k; rd_kind := "" |};
     Delta_serialize := refDelta_serialize;
     Delta_deserialize := refDelta_deserialize |}.

(** Modelled from the spec: [DiffLogic] of [DiffLogic.h] and
    [DiffLogic.cpp], which are not among the sources.  Section 4.3 has one
    strategy per kind of tracked item, found by its persisted type tag, and
    no strategy for an unknown tag. *)
Inductive RefLogic := TrackLogic | InfoLogic | TimelineLogic.

Definition refLogic_getType (l : RefLogic) : Identifier :=
  match l with
  | TrackLogic => "track"
  | InfoLogic => "projectInfo"
  | TimelineLogic => "projectTimeline"
  end.

Definition refLogic_for (tag : Identifier) : option RefLogic :=
  if decide (tag = "track") then Some TrackLogic
  else if decide (tag = "projectInfo") then Some InfoLogic
  else if decide (tag = "projectTimeline") then Some TimelineLogic
  else None.

#[export] Instance refLogic : DiffLogicApi :=
  {| DiffLogic := RefLogic;
     DiffLogic_getType := refLogic_getType;
     createLogicFor := refLogic_for;
     createLogicCopy := λ _, Some TrackLogic |}.

(** Modelled from the spec: [Pack] of [Pack.h] and [Pack.cpp], which are
    not among the sources.  Sections 3 and 4.2 describe a store keyed by
    the pair of item and delta identities, written by upsert, and answering
    a key never written with an empty result. *)
#[export] Instance refPack : PackApi :=
  {| Pack := gmap (Uuid * Uuid) ValueTree;
     setDeltaDataFor := λ p item delta data, <[(item, delta) := data]> p;
     createDeltaDataFor := λ p item delta, default invalidTree (p !! (item, delta)) |}.

(** Concrete inputs. *)
Definition payload (s : string) : ValueTree :=
  setProperty (newTree "payload") "value" (var_string s).

Definition mkDelta (id kind : string) : RefDelta := {| rd_id := id; rd_kind := kind |}.

(** An item as the constructor leaves it when there is nothing to copy. *)
Definition unboundItem : RevisionItem :=
  {| vcsUuid := "item-0"; description := ""; vcsItemType := Undefined;
     logic := None; deltas := []; deltasData := [] |}.

(** An uncommitted snapshot with two deltas and both payloads pending. *)
Definition snapshot : RevisionItem :=
  {| vcsUuid := "item-A"; description := "Piano"; vcsItemType := Changed;
     logic := Some TrackLogic;
     deltas := [mkDelta "d1" "Changed"; mkDelta "d2" "Added"];
     deltasData := [payload "one"; payload "two"] |}.

(** A committed item in whose history one identity was given to two
    deltas, as a damaged or hand-edited project file may have it. *)
Definition repeated : RevisionItem :=
  {| vcsUuid := "item-A"; description := "Piano"; vcsItemType := Changed;
     logic := Some TrackLogic;
     deltas := [mkDelta "d1" "Changed"; mkDelta "d1" "Added"; mkDelta "d2" "Added"];
     deltasData := [] |}.

(** The same item after payloads were imported for "d2" and then for
    "d1". *)
Definition clashing : RevisionItem :=
  {| vcsUuid := "item-A"; description := "Piano"; vcsItemType := Changed;
     logic := Some TrackLogic;
     deltas := [mkDelta "d1" "Changed"; mkDelta "d1" "Added"; mkDelta "d2" "Added"];
     deltasData := [payload "one"; newTree "dummy"; payload "two"] |}.

(** The pack, the trace and the item that flushing [snapshot] into an
    empty pack gives. *)
Definition emptyPack : Pack := (∅ : gmap (Uuid * Uuid) ValueTree).
Definition snapshotPack : Pack :=
  setDeltaDataFor (setDeltaDataFor emptyPack "item-A" "d1" (payload "one"))
    "item-A" "d2" (payload "two").
Definition snapshotWrites : list PackWrite :=
  [("item-A", "d1", payload "one"); ("item-A", "d2", payload "two")].
Definition flushedSnapshot : RevisionItem :=
  {| vcsUuid := "item-A"; description := "Piano"; vcsItemType := Changed;
     logic := Some TrackLogic;
     deltas := [mkDelta "d1" "Changed"; mkDelta "d2" "Added"];
     deltasData := [] |}.

(** The same for [clashing]: the first two writes go under one key. *)
Definition clashingPack : Pack :=
  setDeltaDataFor
    (setDeltaDataFor (setDeltaDataFor emptyPack "item-A" "d1" (payload "one"))
       "item-A" "d1" (newTree "dummy"))
    "item-A" "d2" (payload "two").
Definition clashingWrites : list PackWrite :=
  [("item-A", "d1", payload "one"); ("item-A", "d1", newTree "dummy");
   ("item-A", "d2", payload "two")].
Definition flushedClashing : RevisionItem :=
  {| vcsUuid := "item-A"; description := "Piano"; vcsItemType := Changed;
     logic := Some TrackLogic;
     deltas := [mkDelta "d1" "Changed"; mkDelta "d1" "Added"; mkDelta "d2" "Added"];
     deltasData := [] |}.

(** A live tracked item with two deltas. *)
Definition liveItem : TrackedItem :=
  {| ti_getVCSName := "Piano"; ti_getUuid := "item-A"; ti_getNumDeltas := 2;
     ti_getDelta := λ i, [mkDelta "d1" "Changed"; mkDelta "d2" "Added"] !! Z.to_nat i;
     ti_serializeDeltaData := λ i, payload (pretty i) |}.

(** A serialized item whose type attribute is out of the enumeration. *)
Definition tree99 : ValueTree :=
  setProperty
    (setProperty (newTree Keys.revisionItem) Keys.revisionItemType (var_int 99))
    Keys.revisionItemDiffLogic (var_string "track").

(** A serialized item whose type attribute is an [int64] beyond the range
    of an [int]: 2^32 + 3. *)
Definition treeWide : ValueTree :=
  setProperty
    (setProperty (newTree Keys.revisionItem) Keys.revisionItemType
       (var_int64 4294967299))
    Keys.revisionItemDiffLogic (var_string "track").

(** A serialized item whose type attribute is text, as a project file
    has it. *)
Definition treeText : ValueTree :=
  setProperty
    (setProperty (newTree Keys.revisionItem) Keys.revisionItemType
       (var_string "99"))
    Keys.revisionItemDiffLogic (var_string "track").

(** A serialized item without a type attribute. *)
Definition treeBare : ValueTree :=
  setProperty (newTree Keys.revisionItem) Keys.revisionItemDiffLogic
    (var_string "track").

(** A payload of two objects, at the addresses 0 and 1, as a caller holds
    it when the allocator is at 2. *)
Definition incoming : Sharing.Handle :=
  Sharing.handleTo
    (Sharing.CellAt 0 "payload" [("value", var_string "new")]
       [Sharing.CellAt 1 "note" [] []]).


End Reference.

(** ** The legacy serializer

    The text and byte helpers of
    [Source/Core/Serialization/LegacySerializer.cpp].  A [std::string] and a
    [MemoryBlock] are lists of bytes, a byte is an integer from 0 to 255,
    and a store into an [unsigned char] is taken modulo 256. *)

Module Legacy.

Definition bytesOf (s : string) : list Z :=
  (λ c, Z.of_nat (Ascii.nat_of_ascii c)) <$> String.list_ascii_of_string s.

Definition toUChar (z : Z) : Z := (z mod 256)%Z.

Definition kBase64Chars : list Z :=
  bytesOf "ABCDEFGHIJKLMNOPQRSTUVWXYZabcdefghijklmnopqrstuvwxyz0123456789+/".

Definition kHelioHeaderV1String : list Z := bytesOf "PR::".

Definition kXorKey : list Z :=
  bytesOf ("2V:-5?Vl%ulG+4-PG0`#:;[DUnB.Qs::" +:+
           "v<{#]_oaa3NWyGtA[bq>Qf<i,28gV,,;" +:+
           "y;W6rzn)ij}Ol%Eaxoq),+tx>l|@BS($" +:+
           "7W9b9|46Fr&%pS!}[>5g5lly|bC]3aQu").

(** The character for '=' . *)
Definition padChar : Z := 61%Z.

(** [kBase64Chars[k]]. *)
Definition base64Char (k : Z) : Z := kBase64Chars !!! Z.to_nat k.

(** The four [char_array_4] values computed from [char_array_3]. *)
Definition sextets (a3 : list Z) : list Z :=
  let a0 := a3 !!! 0 in let a1 := a3 !!! 1 in let a2 := a3 !!! 2 in
  [ toUChar (Z.shiftr (Z.land a0 0xfc) 2);
    toUChar (Z.shiftl (Z.land a0 0x03) 4 + Z.shiftr (Z.land a1 0xf0) 4);
    toUChar (Z.shiftl (Z.land a1 0x0f) 2 + Z.shiftr (Z.land a2 0xc0) 6);
    toUChar (Z.land a2 0x3f) ]%Z.

(** The [while (in_len--)] loop of [encodeBase64]: the state is the counter
    [i], [char_array_3] and the text built so far. *)
Fixpoint encodeLoop (bytes : list Z) (i : nat) (a3 : list Z) (ret : list Z)
  : nat * list Z * list Z :=
  match bytes with
  | [] => (i, a3, ret)
  | b :: rest =>
      let a3 := <[i := b]> a3 in
      let i := S i in
      if decide (i = 3) then
        encodeLoop rest 0 a3 (ret ++ (base64Char <$> sextets a3))
      else encodeLoop rest i a3 ret
  end.

(** What [encodeBase64] does after its loop: the last one or two bytes,
    filled up with zeros, give two or three characters, and '=' fills the
    group. *)
Definition encodeFinish (st : nat * list Z * list Z) : list Z :=
  let '(i, a3, ret) := st in
  if decide (i ≠ 0) then
    let a3 := take i a3 ++ replicate (3 - i) 0%Z in
    let a4 := sextets a3 in
    ret ++ (base64Char <$> take (i + 1) a4) ++ replicate (3 - i) padChar
  else ret.

(** [encodeBase64 (bytes_to_encode, in_len)].  The array [char_array_3] is
    not initialised in the source; each of its slots is written before it
    is read. *)
Definition encodeBase64 (bytes : list Z) : list Z :=
  encodeFinish (encodeLoop bytes 0 [0; 0; 0]%Z []).

(** [isalnum] in the C locale, and [isBase64]. *)
Definition isalnum (c : Z) : bool :=
  ((48 <=? c) && (c <=? 57) || (65 <=? c) && (c <=? 90) || (97 <=? c) && (c <=? 122))%Z.

Definition isBase64 (c : Z) : bool :=
  isalnum c || bool_decide (c = 43%Z) || bool_decide (c = 47%Z).

(** [(unsigned char) kBase64Chars.find (c)]: the position of [c], or [npos]
    cut down to a byte. *)
Definition findChar (c : Z) : Z :=
  match list_find (λ x, x = c) kBase64Chars with
  | Some (k, _) => toUChar (Z.of_nat k)
  | None => 255%Z
  end.

(** The three [char_array_3] values computed from [char_array_4]. *)
Definition octets (a4 : list Z) : list Z :=
  let c0 := a4 !!! 0 in let c1 := a4 !!! 1 in
  let c2 := a4 !!! 2 in let c3 := a4 !!! 3 in
  [ toUChar (Z.shiftl c0 2 + Z.shiftr (Z.land c1 0x30) 4);
    toUChar (Z.shiftl (Z.land c1 0xf) 4 + Z.shiftr (Z.land c2 0x3c) 2);
    toUChar (Z.shiftl (Z.land c2 0x3) 6 + c3) ]%Z.

(** The main loop of [decodeBase64]: it stops at the end of the text, at
    '=' and at any character that is not of the alphabet. *)
Fixpoint decodeLoop (s : list Z) (i : nat) (a4 : list Z) (ret : list Z)
  : nat * list Z * list Z :=
  match s with
  | [] => (i, a4, ret)
  | c :: rest =>
      if bool_decide (c ≠ padChar) && isBase64 c then
        let a4 := <[i := c]> a4 in
        let i := S i in
        if decide (i = 4) then
          let a4 := findChar <$> a4 in
          decodeLoop rest 0 a4 (ret ++ octets a4)
        else decodeLoop rest i a4 ret
      else (i, a4, ret)
  end.

(** What [decodeBase64] does after its loop: an unfinished group, filled
    up with zeros, gives one byte less than it has characters. *)
Definition decodeFinish (st : nat * list Z * list Z) : list Z :=
  let '(i, a4, ret) := st in
  if decide (i ≠ 0) then
    let a4 := take i a4 ++ replicate (4 - i) 0%Z in
    let a4 := findChar <$> a4 in
    ret ++ take (i - 1) (octets a4)
  else ret.

(** [decodeBase64 (encoded_string)]; [char_array_4] is not initialised in
    the source either. *)
Definition decodeBase64 (s : list Z) : list Z :=
  decodeFinish (decodeLoop s 0 [0; 0; 0; 0]%Z []).

(** [doXor]: each byte is combined with the key byte at its index modulo
    the length of the key. *)
Definition doXor (input : list Z) : list Z :=
  imap (λ i orig, Z.lxor orig (kXorKey !!! (i mod length kXorKey))) input.

(** The text [encodeBase64] produces in closed form, three bytes at a
    time. *)
Fixpoint encodeChunks (bytes : list Z) : list Z :=
  match bytes with
  | [] => []
  | [b0] => (base64Char <$> take 2 (sextets [b0; 0; 0]%Z)) ++ [padChar; padChar]
  | [b0; b1] => (base64Char <$> take 3 (sextets [b0; b1; 0]%Z)) ++ [padChar]
  | b0 :: b1 :: b2 :: rest => (base64Char <$> sextets [b0; b1; b2]) ++ encodeChunks rest
  end.

Definition isByte (b : Z) : Prop := (0 ≤ b < 256)%Z.

(** The four characters of a group by the bytes each depends on, and the
    three bytes of a group by the characters each depends on. *)
Definition s0 (b0 : Z) : Z := toUChar (Z.shiftr (Z.land b0 0xfc) 2).
Definition s1 (b0 b1 : Z) : Z :=
  toUChar (Z.shiftl (Z.land b0 0x03) 4 + Z.shiftr (Z.land b1 0xf0) 4).
Definition s2 (b1 b2 : Z) : Z :=
  toUChar (Z.shiftl (Z.land b1 0x0f) 2 + Z.shiftr (Z.land b2 0xc0) 6).
Definition s3 (b2 : Z) : Z := toUChar (Z.land b2 0x3f).
Definition o0 (c0 c1 : Z) : Z :=
  toUChar (Z.shiftl c0 2 + Z.shiftr (Z.land c1 0x30) 4).
Definition o1 (c1 c2 : Z) : Z :=
  toUChar (Z.shiftl (Z.land c1 0xf) 4 + Z.shiftr (Z.land c2 0x3c) 2).
Definition o2 (c2 c3 : Z) : Z :=
  toUChar (Z.shiftl (Z.land c2 0x3) 6 + c3).

(** A character the loop of [decodeBase64] goes on at. *)
Definition decodable (c : Z) : bool := bool_decide (c ≠ padChar) && isBase64 c.

(** The JUCE strings and the gzip streams behind [compress] and
    [decompress] are taken as an interface: a string type, the two
    functions, and the conversions between a string and its bytes
    ([String::createStringFromData], [String::toStdString]). *)
Class TextApi := {
  JString : Type;
  compress : JString → list Z;
  decompress : list Z → JString;
  createStringFromData : list Z → JString;
  toStdString : JString → list Z
}.

(** [obfuscateString] and [deobfuscateString]. *)
Definition obfuscateString `{TextApi} (buffer : JString) : JString :=
  let compressed := compress buffer in
  let xorBlock := doXor compressed in
  let encoded := encodeBase64 xorBlock in
  createStringFromData encoded.

Definition deobfuscateString `{TextApi} (buffer : JString) : JString :=
  let decoded := decodeBase64 (toStdString buffer) in
  let xorBlock := doXor decoded in
  decompress xorBlock.

(** The characters of a JUCE string and their lower case
    ([CharacterFunctions::toLowerCase]) are taken as an interface; a string
    is the list of its characters. *)
Class CharApi := {
  JChar : Type;
  toLowerCase : JChar → JChar
}.

(** [toLowerCamelCase]. *)
Definition toLowerCamelCase `{CharApi} (string : list JChar) : list JChar :=
  if (1 <? Z.of_nat (length string))%Z then
    (toLowerCase <$> take 1 string) ++ drop 1 string
  else string.

End Legacy.

(** ** The navigation history of the tree

    [Source/Core/Tree/TreeNavigationHistory.cpp].  The history is an
    [Array] of weak references to tree items and the index of the current
    page.  A weak reference is null, refers to a live item, or refers to an
    item that has been deleted; whether an item is still alive is read at
    the time of a call.  The loops of this file do not end on every state,
    so each is given a number of turns it may take. *)

Module Navigation.

(** The address of a tree item. *)
Definition TreeItemPtr := nat.

Inductive WeakRef :=
| noRef
| liveRef (p : TreeItemPtr)
| deadRef.

(** [WeakReference::get]: the item, or null. *)
Definition get (w : WeakRef) : option TreeItemPtr :=
  match w with liveRef p => Some p | _ => None end.

(** [WeakReference::wasObjectDeleted]: false for a null reference. *)
Definition wasObjectDeleted (w : WeakRef) : bool :=
  match w with deadRef => true | _ => false end.

(** Two weak references, or a weak reference and a pointer, compare by
    the pointers they give. *)
Definition sameItem (a b : WeakRef) : bool := bool_decide (get a = get b).

Definition jlimit (lo hi v : Z) : Z :=
  if (v <? lo)%Z then lo else if (hi <? v)%Z then hi else v.

(** [Array::operator[]]: a null reference out of range. *)
Definition refAt (l : list WeakRef) (i : Z) : WeakRef :=
  if (0 <=? i)%Z then default noRef (l !! Z.to_nat i) else noRef.

Definition size (l : list WeakRef) : Z := Z.of_nat (length l).

(** [Array::removeRange], which clips the range to the array. *)
Definition removeRange (l : list WeakRef) (startIndex numberToRemove : Z)
  : list WeakRef :=
  let endIndex := jlimit 0 (size l) (startIndex + numberToRemove) in
  let startIndex := jlimit 0 (size l) startIndex in
  if (0 <? endIndex - startIndex)%Z then
    take (Z.to_nat startIndex) l ++ drop (Z.to_nat endIndex) l
  else l.

(** The fields of a [TreeNavigationHistory], with [list_] for [list];
    [historyLock] is a weak
    reference to the lock handed out by [lock ()], of which only whether it
    still refers to a live lock is read. *)
Record History := {
  list_ : list WeakRef;
  currentPageIndex : Z;
  historyLock : bool
}.

(** [TreeNavigationHistory::TreeNavigationHistory]. *)
Definition emptyHistory : History :=
  {| list_ := []; currentPageIndex := 0; historyLock := false |}.

(** [lock ()] makes a new lock and refers to it; the reference goes back to
    null when the caller lets go of the lock. *)
Definition lock (h : History) : History :=
  {| list_ := list_ h; currentPageIndex := currentPageIndex h; historyLock := true |}.
Definition lockReleased (h : History) : History :=
  {| list_ := list_ h; currentPageIndex := currentPageIndex h; historyLock := false |}.

(** The deletion of a tree item, as the references to it see it. *)
Definition itemDeleted (p : TreeItemPtr) (h : History) : History :=
  {| list_ :=
       (λ w, match w with
             | liveRef q => if decide (q = p) then deadRef else w
             | _ => w
             end) <$> list_ h;
     currentPageIndex := currentPageIndex h;
     historyLock := historyLock h |}.

Definition canGoForward (h : History) : bool :=
  (currentPageIndex h <? size (list_ h) - 1)%Z.

Definition canGoBackward (h : History) : bool :=
  (0 <? currentPageIndex h)%Z.

Definition getCurrentItem (h : History) : WeakRef :=
  refAt (list_ h) (currentPageIndex h).

(** The [while] loop of [goBack]. *)
Fixpoint goBackLoop (turns : nat) (l : list WeakRef) (index : Z)
  : option (list WeakRef * Z) :=
  match turns with
  | 0 => None
  | S turns =>
      if (0 <? size l)%Z then
        let currentItem := refAt l index in
        let index := (index - 1)%Z in
        let previousItem := refAt l index in
        let previousItemIsTheSameAsCurrent :=
          negb (wasObjectDeleted previousItem) &&
          negb (wasObjectDeleted currentItem) &&
          sameItem currentItem previousItem in
        if wasObjectDeleted previousItem || previousItemIsTheSameAsCurrent then
          goBackLoop turns (removeRange l index 1) index
        else Some (l, index)
      else Some (l, index)
  end.

(** [goBack]: the reference returned, the history, and whether a change
    message was sent. *)
Definition goBack (turns : nat) (h : History) : option (WeakRef * History * bool) :=
  if negb (canGoBackward h) then Some (noRef, h, false)
  else
    st ← goBackLoop turns (list_ h) (currentPageIndex h);
    Some (refAt st.1 st.2,
          {| list_ := st.1; currentPageIndex := st.2; historyLock := historyLock h |},
          true).

(** The [while] loop of [goForward]. *)
Fixpoint goForwardLoop (turns : nat) (l : list WeakRef) (index : Z)
  : option (list WeakRef * Z) :=
  match turns with
  | 0 => None
  | S turns =>
      if (index <? size l - 1)%Z then
        let currentItem := refAt l index in
        let index := (index + 1)%Z in
        let nextItem := refAt l index in
        let nextItemIsTheSameAsCurrent :=
          negb (wasObjectDeleted currentItem) &&
          negb (wasObjectDeleted nextItem) &&
          sameItem currentItem nextItem in
        if wasObjectDeleted nextItem || nextItemIsTheSameAsCurrent then
          goForwardLoop turns (removeRange l index 1) (index - 1)%Z
        else Some (l, index)
      else Some (l, index)
  end.

Definition goForward (turns : nat) (h : History) : option (WeakRef * History * bool) :=
  if negb (canGoForward h) then Some (noRef, h, false)
  else
    st ← goForwardLoop turns (list_ h) (currentPageIndex h);
    Some (refAt st.1 st.2,
          {| list_ := st.1; currentPageIndex := st.2; historyLock := historyLock h |},
          true).

(** The cleaning loop of [addItemIfNeeded], which leaves the last entry
    alone. *)
Fixpoint cleanupLoop (turns : nat) (l : list WeakRef) (index i : Z)
  : option (list WeakRef * Z) :=
  match turns with
  | 0 => None
  | S turns =>
      if (i <? size l - 1)%Z then
        if wasObjectDeleted (refAt l i) then
          cleanupLoop turns (removeRange l i 1)
            (if (i <=? index)%Z then index - 1 else index)%Z i
        else cleanupLoop turns l index (i + 1)%Z
      else Some (l, index)
  end.

(** [addItemIfNeeded (item)], with [None] for a null pointer: what it
    returns, the history, and whether a change message was sent. *)
Definition addItemIfNeeded (turns : nat) (h : History) (item : option TreeItemPtr)
  : option (bool * History * bool) :=
  if historyLock h then Some (false, h, false)
  else
    match item with
    | Some p =>
        if bool_decide (get (getCurrentItem h) ≠ Some p) then
          st ← cleanupLoop turns (list_ h) (currentPageIndex h) 0;
          let l := removeRange st.1 (st.2 + 1) (size st.1) in
          let l := l ++ [liveRef p] in
          Some (true,
                {| list_ := l; currentPageIndex := size l - 1;
                   historyLock := historyLock h |},
                true)
        else Some (false, h, false)
    | None => Some (false, h, false)
    end.

(** A history whose entries all came from [addItemIfNeeded], and whose
    index is at most one step before the first entry. *)
Definition wellFormed (h : History) : Prop :=
  Forall (λ w, w ≠ noRef) (list_ h) ∧
  (-1 ≤ currentPageIndex h ≤ Z.max 0 (size (list_ h) - 1))%Z.

End Navigation.

(** ** Concrete inputs for the legacy serializer and the history *)

Module Samples.
Import VCS Reference Legacy Navigation.

(** A project tree with a serialized revision item inside it. *)
Definition wrappedTree : ValueTree := appendChild (newTree "project") tree99.

(** Strings as their bytes, with a compressor that stores them as they
    are. *)
Definition textOf (bytes : list Z) : string :=
  String.string_of_list_ascii ((λ z, Ascii.ascii_of_nat (Z.to_nat z)) <$> bytes).

#[export] Instance storedText : TextApi :=
  {| JString := string;
     compress := bytesOf;
     decompress := textOf;
     createStringFromData := textOf;
     toStdString := bytesOf |}.

(** A history of three pages, the first two of deleted items, with the
    user on the third. *)
Definition staleHistory : History :=
  {| list_ := [deadRef; deadRef; liveRef 3];
     currentPageIndex := 2; historyLock := false |}.

(** A history of three pages of live items, with the user on the second. *)
Definition freshHistory : History :=
  {| list_ := [liveRef 1; liveRef 2; liveRef 3];
     currentPageIndex := 1; historyLock := false |}.

(** Characters as code points, with the lower case of the letters A to
    Z. *)
#[export] Instance asciiChars : CharApi :=
  {| JChar := Z;
     toLowerCase := λ c, if ((65 <=? c) && (c <=? 90))%Z then (c + 32)%Z else c |}.

End Samples.

(** ** Facts about the containers *)

Section JuceFacts.
Import Juce.

Lemma copyObject_id : ∀ o, copyObject o = o.
Proof.
  fix IH 1. intros [ty ps cs]. simpl. f_equal.
  induction cs as [|c cs IHcs]; simpl; [done|].
  by rewrite IH, IHcs.
Qed.

Lemma createCopy_id t : createCopy t = t.
Proof. destruct t; simpl; [done|]. by rewrite copyObject_id. Qed.

Lemma forLoop_0 {S} (body : nat → S → option S) s : forLoop 0 body s = Some s.
Proof. done. Qed.

Lemma forLoop_S {S} n (body : nat → S → option S) s :
  forLoop (Datatypes.S n) body s = forLoop n body s ≫= body n.
Proof. unfold forLoop. by rewrite seq_S, foldl_app. Qed.

Lemma Array_get_nat a (i : nat) :
  Array_get a (Z.of_nat i) = default invalidTree (a !! i).
Proof.
  unfold Array_get. rewrite Nat2Z.id.
  by destruct (Z.leb_spec 0 (Z.of_nat i)); [|lia].
Qed.

Lemma OwnedArray_get_nat {A} (a : list A) (i : nat) :
  OwnedArray_get a (Z.of_nat i) = a !! i.
Proof.
  unfold OwnedArray_get. rewrite Nat2Z.id.
  by destruct (Z.leb_spec 0 (Z.of_nat i)); [|lia].
Qed.

Lemma Array_set_nat {A} (a : list A) (i : nat) v :
  i < length a → Array_set a (Z.of_nat i) v = <[i := v]> a.
Proof.
  intros Hi. unfold Array_set. rewrite Nat2Z.id.
  destruct (Z.ltb_spec (Z.of_nat i) 0); [lia|].
  by destruct (Z.ltb_spec (Z.of_nat i) (Z.of_nat (length a))); [|lia].
Qed.

Lemma NamedValueSet_get_set_eq ps name v :
  NamedValueSet_get (NamedValueSet_set ps name v) name = Some v.
Proof.
  induction ps as [|[n x] ps IH]; simpl.
  - by rewrite decide_True.
  - destruct (decide (n = name)) as [->|Hne]; simpl.
    + by rewrite decide_True.
    + by rewrite decide_False.
Qed.

Lemma NamedValueSet_get_set_ne ps name name' v :
  name ≠ name' →
  NamedValueSet_get (NamedValueSet_set ps name v) name' = NamedValueSet_get ps name'.
Proof.
  intros Hne. induction ps as [|[n x] ps IH]; simpl.
  - by rewrite decide_False.
  - destruct (decide (n = name)) as [->|Hn]; simpl.
    + by rewrite !decide_False.
    + destruct (decide (n = name')); [done|]. apply IH.
Qed.

Lemma getProperty_setProperty_eq t name v dflt :
  isValid t = true → getProperty (setProperty t name v) name dflt = v.
Proof.
  destruct t as [|[ty ps cs]]; [done|]. intros _. simpl.
  by rewrite NamedValueSet_get_set_eq.
Qed.

Lemma getProperty_setProperty_ne t name name' v dflt :
  name ≠ name' →
  getProperty (setProperty t name v) name' dflt = getProperty t name' dflt.
Proof.
  intros Hne. destruct t as [|[ty ps cs]]; [done|]. simpl.
  by rewrite NamedValueSet_get_set_ne.
Qed.

Lemma hasType_setProperty t name v ty :
  hasType (setProperty t name v) ty = hasType t ty.
Proof. by destruct t as [|[? ? ?]]. Qed.

Lemma isValid_setProperty t name v : isValid (setProperty t name v) = isValid t.
Proof. by destruct t as [|[? ? ?]]. Qed.

Lemma getChildren_setProperty t name v :
  getChildren (setProperty t name v) = getChildren t.
Proof. by destruct t as [|[? ? ?]]. Qed.

Lemma isValid_hasType t ty : hasType t ty = true → isValid t = true.
Proof. by destruct t. Qed.

(** Appending valid children one after the other keeps the node and its
    properties and extends the children in order. *)
Lemma foldl_appendChild {A} (f : A → ValueTree) (xs : list A) t :
  isValid t = true →
  (∀ x, x ∈ xs → isValid (f x) = true) →
  let t' := foldl (λ tree x, appendChild tree (f x)) t xs in
  isValid t' = true ∧
  (∀ ty, hasType t' ty = hasType t ty) ∧
  (∀ name dflt, getProperty t' name dflt = getProperty t name dflt) ∧
  getChildren t' = getChildren t ++ (f <$> xs).
Proof.
  revert t. induction xs as [|x xs IH]; intros t Hv Hf; simpl.
  - by rewrite app_nil_r.
  - assert (isValid (f x) = true) as Hx by (apply Hf; left).
    destruct t as [|[ty ps cs]]; [done|].
    destruct (f x) as [|c] eqn:Hfx; [done|]. simpl.
    destruct (IH (validTree (Object ty ps (cs ++ [c]))) eq_refl) as (H1 & H2 & H3 & H4).
    { intros y Hy. apply Hf. by right. }
    split_and!; [done|done|done|].
    rewrite H4. simpl. rewrite fmap_app. simpl. by rewrite <- app_assoc.
Qed.

End JuceFacts.

(** ** Properties of the revision item *)

Import VCS.

Section RevisionItemFacts.
Context `{StringApi} `{DiffLogicApi} `{PackApi}.

(** A property that is present is read the same whatever the default. *)
Lemma getProperty_found t name z dflt :
  getPropertyOrVoid t name = var_int z → getProperty t name dflt = var_int z.
Proof.
  unfold getPropertyOrVoid. destruct t as [|o]; simpl; [done|].
  by destruct (NamedValueSet_get (objProperties o) name).
Qed.


Lemma deltasData_deserialize r tree :
  deltasData (deserialize r tree) = deltasData r.
Proof. unfold deserialize. by destruct (isValid (rootOf tree)). Qed.

(** Reading a slot of the pending cache never reaches the pack. *)
Lemma serializeDeltaData_cached pack r (i : Z) payload :
  (0 ≤ i)%Z → deltasData r !! Z.to_nat i = Some payload →
  serializeDeltaData pack r i = Some payload.
Proof.
  intros Hi Hl. unfold serializeDeltaData, Array_size, Array_get.
  apply lookup_lt_Some in Hl as Hlt.
  destruct (Z.ltb_spec i (Z.of_nat (length (deltasData r)))); [|lia].
  destruct (Z.leb_spec 0 i); [|lia]. by rewrite Hl.
Qed.

(** A missing type attribute is read as [Undefined]. *)
Lemma deserialize_type_default r tree o :
  rootOf tree = validTree o →
  NamedValueSet_get (objProperties o) Keys.revisionItemType = None →
  getType (deserialize r tree) = Undefined.
Proof.
  intros Hroot Hnone. unfold deserialize. rewrite Hroot. simpl.
  by rewrite Hnone.
Qed.

(** What [deserialize] stores as the type: the type attribute, or
    [Undefined] in its place, converted to an [int]. *)
Lemma getType_deserialize r tree :
  isValid (rootOf tree) = true →
  getType (deserialize r tree) =
  var_toInt (getProperty (rootOf tree) Keys.revisionItemType (var_int Undefined)).
Proof. intros Hvalid. unfold deserialize. by rewrite Hvalid. Qed.

Lemma getProperty_present t name v dflt :
  getPropertyOrVoid t name = v → v ≠ var_void → getProperty t name dflt = v.
Proof.
  unfold getPropertyOrVoid. destruct t as [|o]; simpl; [congruence|].
  destruct (NamedValueSet_get (objProperties o) name); simpl; congruence.
Qed.

(** C1 (as amended): [deserialize] always returns, and the type of the
    result is the integer stored in the [revisionItemType] attribute, read
    as a C++ [int] and cast to the enumeration without a range check.  An
    [int] is kept as it is, so that 99 stays 99; an [int64] is cut down to
    its low 32 bits; a string gives the [int] it is parsed as.  The
    result is [Undefined] only when the [int] so read is the value of
    [Undefined], or when the attribute is missing. *)
Theorem C1_deserialize_keeps_stored_type r tree :
  isValid (rootOf tree) = true →
  (∀ z, getPropertyOrVoid (rootOf tree) Keys.revisionItemType = var_int z →
     isInt z →
     getType (deserialize r tree) = z ∧
     (getType (deserialize r tree) = Undefined ↔ z = Undefined)) ∧
  (∀ z, getPropertyOrVoid (rootOf tree) Keys.revisionItemType = var_int64 z →
     getType (deserialize r tree) = wrapInt z ∧
     isInt (getType (deserialize r tree)) ∧
     (getType (deserialize r tree) = Undefined ↔ wrapInt z = Undefined)) ∧
  (∀ s, getPropertyOrVoid (rootOf tree) Keys.revisionItemType = var_string s →
     isInt (String_getIntValue s) →
     getType (deserialize r tree) = String_getIntValue s) ∧
  (∀ o, rootOf tree = validTree o →
     NamedValueSet_get (objProperties o) Keys.revisionItemType = None →
     getType (deserialize r tree) = Undefined).
Proof.
  intros Hvalid. rewrite getType_deserialize by done. split_and!.
  - intros z Hprop _. by rewrite (getProperty_present _ _ (var_int z)).
  - intros z Hprop. rewrite (getProperty_present _ _ (var_int64 z)) by done.
    cbn [var_toInt]. split_and!; [done| |done].
    unfold isInt, wrapInt. pose proof (Z.mod_pos_bound (z + 2 ^ 31) (2 ^ 32)). lia.
  - intros s Hprop _. by rewrite (getProperty_present _ _ (var_string s)).
  - intros o Hroot Hnone. rewrite Hroot. simpl. by rewrite Hnone.
Qed.


(** C5: for a valid index, [serializeDeltaData] answers with the pending
    payload at that index when the pending cache is long enough, and
    otherwise with what the pack holds for the item and that delta. *)
Theorem C5_two_tier_lookup pack r (i : Z) :
  (0 ≤ i < getNumDeltas r)%Z →
  ((i < Array_size (deltasData r))%Z →
     ∃ payload, deltasData r !! Z.to_nat i = Some payload ∧
                serializeDeltaData pack r i = Some payload) ∧
  ((Array_size (deltasData r) ≤ i)%Z →
     ∃ delta, deltas r !! Z.to_nat i = Some delta ∧
              serializeDeltaData pack r i =
                Some (createDeltaDataFor pack (getUuid r) (Delta_getUuid delta))).
Proof.
  unfold getNumDeltas, Array_size. intros [Hlo Hhi]. split; intros Hc.
  - destruct (lookup_lt_is_Some_2 (deltasData r) (Z.to_nat i)) as [payload Hp]; [lia|].
    exists payload. split; [done|]. by apply serializeDeltaData_cached.
  - destruct (lookup_lt_is_Some_2 (deltas r) (Z.to_nat i)) as [delta Hd]; [lia|].
    exists delta. split; [done|]. unfold serializeDeltaData, Array_size, OwnedArray_get.
    destruct (Z.ltb_spec i (Z.of_nat (length (deltasData r)))); [lia|].
    destruct (Z.leb_spec 0 i); [|lia]. by rewrite Hd.
Qed.

(** C9: neither [reset] nor [deserialize] touches the pending payload
    cache, so a payload cached before either of them is still what
    [serializeDeltaData] returns at its index afterwards. *)
Theorem C9_pending_cache_survives_reload r tree :
  deltasData (reset r) = deltasData r ∧
  deltasData (deserialize r tree) = deltasData r ∧
  ∀ pack (i : Z) payload,
    (0 ≤ i)%Z → deltasData r !! Z.to_nat i = Some payload →
    serializeDeltaData pack (reset r) i = Some payload ∧
    serializeDeltaData pack (deserialize r tree) i = Some payload.
Proof.
  split_and!; [done|apply deltasData_deserialize|].
  intros pack i payload Hi Hl. split; apply serializeDeltaData_cached; try done.
  by rewrite deltasData_deserialize.
Qed.

(** C10: constructing with a null tracked item returns an item with no
    deltas, no pending payloads, an empty name, no logic, and the type it
    was given. *)
Theorem C10_construct_without_target fresh type :
  ∃ r, RevisionItem_new fresh type None = Some r ∧
       getNumDeltas r = 0%Z ∧ deltas r = [] ∧ deltasData r = [] ∧
       getVCSName r = "" ∧ getDiffLogic r = None ∧ getType r = type.
Proof. eexists. split; [reflexivity|]. by split_and!. Qed.

(** The copying loop of the constructor, after [n] turns. *)
Lemma copy_loop (t : TrackedItem) r0 n :
  (∀ i, i < n → is_Some (ti_getDelta t (Z.of_nat i))) →
  ∃ r, forLoop n (copyDelta t) r0 = Some r ∧
       vcsUuid r = vcsUuid r0 ∧ description r = description r0 ∧
       vcsItemType r = vcsItemType r0 ∧ logic r = logic r0 ∧
       length (deltas r) = length (deltas r0) + n ∧
       deltasData r =
         deltasData r0 ++ ((λ i, ti_serializeDeltaData t (Z.of_nat i)) <$> seq 0 n) ∧
       ∀ i, i < n →
         Delta_createCopy <$> ti_getDelta t (Z.of_nat i) =
         deltas r !! (length (deltas r0) + i).
Proof.
  induction n as [|n IH]; intros Hd.
  - exists r0. rewrite forLoop_0. simpl. rewrite app_nil_r.
    split_and!; try done; lia.
  - destruct IH as (r & Hr & Hu & Hn & Ht & Hl & Hlen & Hdata & Hcopies);
      [intros; apply Hd; lia|].
    destruct (Hd n) as [d Hdn]; [lia|].
    rewrite forLoop_S, Hr. cbn -[seq]. unfold copyDelta. rewrite Hdn. cbn -[seq].
    eexists. split; [reflexivity|]. cbn -[seq]. split_and!; try done.
    + rewrite length_app, Hlen. simpl. lia.
    + rewrite Hdata, seq_S, fmap_app, <- app_assoc. done.
    + intros i Hi. destruct (decide (i = n)) as [->|Hne].
      * rewrite Hdn, lookup_app_r, <- Hlen, Nat.sub_diag by lia. done.
      * rewrite lookup_app_l by lia. apply Hcopies. lia.
Qed.

(** C4: a revision item copied from a tracked item with [N] deltas has [N]
    deltas, each a copy of the source's delta at the same index, the name
    and the identity of its source, and, until it is flushed, answers
    [serializeDeltaData i] with the payload the source gave for delta [i]
    when it was copied. *)
Theorem C4_copy_captures_payloads fresh type (t : TrackedItem) :
  (0 ≤ ti_getNumDeltas t)%Z →
  (∀ i, (0 ≤ i < ti_getNumDeltas t)%Z → is_Some (ti_getDelta t i)) →
  ∃ r, RevisionItem_new fresh type (Some t) = Some r ∧
       getNumDeltas r = ti_getNumDeltas t ∧
       getVCSName r = ti_getVCSName t ∧
       getUuid r = ti_getUuid t ∧
       ∀ i, (0 ≤ i < ti_getNumDeltas t)%Z →
         getDelta r i = Delta_createCopy <$> ti_getDelta t i ∧
         ∀ pack, serializeDeltaData pack r i = Some (ti_serializeDeltaData t i).
Proof.
  intros HN Hd. unfold RevisionItem_new.
  edestruct (copy_loop t) as (r & Hr & Hu & Hn & Ht & Hl & Hlen & Hdata & Hcopies);
    [|exists r; split; [exact Hr|]].
  { intros i Hi. apply Hd. lia. }
  simpl in *. unfold getNumDeltas, getVCSName, getUuid, Array_size.
  split_and!; [lia|done|done|].
  intros i Hi. split.
  - unfold getDelta, OwnedArray_get. destruct (Z.leb_spec 0 i); [|lia].
    rewrite <- (Hcopies (Z.to_nat i)) by lia. by rewrite Z2Nat.id by lia.
  - intros pack. apply serializeDeltaData_cached; [lia|].
    rewrite Hdata, list_lookup_fmap, lookup_seq_lt by lia.
    simpl. by rewrite Z2Nat.id by lia.
Qed.

(** C7: when a flush has returned, a second flush right after it writes
    nothing: it returns the same pack and the same item, with an empty
    trace of writes. *)
Theorem C7_second_flush_writes_nothing pack r pack1 writes1 r1 :
  flushData pack r = Some (pack1, writes1, r1) →
  deltasData r1 = [] ∧ flushData pack1 r1 = Some (pack1, [], r1).
Proof.
  unfold flushData. intros Hf.
  destruct (forLoop _ _ _) as [[p ws]|]; simplify_eq/=. done.
Qed.

(** The [while] loop of [importDataForDelta] in closed form. *)
Lemma addDummies_replicate k data :
  addDummies k data = data ++ replicate k (newTree "dummy").
Proof.
  revert data. induction k as [|k IH]; intros data; simpl.
  - by rewrite app_nil_r.
  - by rewrite IH, <- app_assoc.
Qed.

Lemma with_deltasData_same (r : RevisionItem) : with_deltasData (deltasData r) r = r.
Proof. by destruct r. Qed.

Lemma importScan_no_match rest i payload u data :
  Forall (λ d, Delta_getUuid d ≠ u) rest →
  importScan rest i payload u data = data.
Proof.
  intros Hall. revert i. induction Hall as [|d rest Hd _ IH]; intros i; simpl; [done|].
  by rewrite decide_False.
Qed.

Lemma importScan_first_match rest i k d payload u data :
  rest !! k = Some d → Delta_getUuid d = u →
  (∀ j d', j < k → rest !! j = Some d' → Delta_getUuid d' ≠ u) →
  importScan rest i payload u data =
    <[i + k := createCopy payload]>
      (data ++ replicate (S (i + k) - length data) (newTree "dummy")).
Proof.
  revert i k. induction rest as [|d0 rest IH]; intros i k Hk Hu Hfirst; [done|].
  destruct k as [|k]; simpl in *.
  - simplify_eq. rewrite decide_True by done.
    rewrite addDummies_replicate, Nat.add_0_r.
    apply Array_set_nat. rewrite length_app, length_replicate. lia.
  - rewrite decide_False by (apply (Hfirst 0); [lia|done]).
    rewrite (IH (S i) k); [|done|done|].
    + by replace (S i + k) with (i + S k) by lia.
    + intros j d' Hj Hd'. apply (Hfirst (S j)); [lia|done].
Qed.

(** The flushing loop after [n] turns: it has needed a delta for each of
    the first [n] pending payloads, and the pack it leaves reads back each
    of them under its delta, unless a later one was written under the same
    key. *)
Lemma flush_loop r pack n p ws :
  PackReadsBack →
  n ≤ length (deltasData r) →
  forLoop n (flushOne r) (pack, []) = Some (p, ws) →
  n ≤ length (deltas r) ∧
  ∀ i delta data,
    i < n → deltas r !! i = Some delta → deltasData r !! i = Some data →
    (∀ j delta', i < j < n → deltas r !! j = Some delta' →
       Delta_getUuid delta' ≠ Delta_getUuid delta) →
    createDeltaDataFor p (getUuid r) (Delta_getUuid delta) = data.
Proof.
  intros [Hsame Hother]. revert p ws.
  induction n as [|n IH]; intros p ws Hn Hloop.
  - split; [lia|]. intros; lia.
  - rewrite forLoop_S in Hloop.
    destruct (forLoop n (flushOne r) (pack, [])) as [[p0 ws0]|] eqn:Hprev; [|done].
    destruct (IH p0 ws0) as [Hlen Hread]; [lia|done|].
    simpl in Hloop. unfold flushOne in Hloop.
    rewrite OwnedArray_get_nat, Array_get_nat in Hloop.
    destruct (deltas r !! n) as [dn|] eqn:Hdn; [|done].
    simpl in Hloop. simplify_eq.
    apply lookup_lt_Some in Hdn as Hlt. split; [lia|].
    intros i delta data Hi Hd Hv Hlater.
    destruct (decide (i = n)) as [->|Hne].
    + simplify_eq. rewrite Hv. simpl. apply Hsame.
    + rewrite Hother.
      * apply (Hread i); [lia|done|done|]. intros j delta' Hj. apply Hlater. lia.
      * intros Heq. simplify_eq. apply (Hlater n dn); [lia|done|congruence].
Qed.

(** C6 (as amended): when the pack reads back what was last written under a
    key, and a flush has returned, then for every index that had a pending
    payload and whose delta shares its uuid with no later delta that had
    one, the pending cache is empty and [serializeDeltaData] returns that
    payload, read from the pack under the item's and the delta's uuids. *)
Theorem C6_flushed_payload_is_read_back pack r pack' writes r' (i : Z) :
  PackReadsBack →
  flushData pack r = Some (pack', writes, r') →
  (0 ≤ i < Array_size (deltasData r))%Z →
  (∀ j delta delta',
     Z.to_nat i < j < length (deltasData r) →
     deltas r !! Z.to_nat i = Some delta → deltas r !! j = Some delta' →
     Delta_getUuid delta' ≠ Delta_getUuid delta) →
  ∃ delta data,
    getDelta r i = Some delta ∧ deltasData r !! Z.to_nat i = Some data ∧
    deltasData r' = [] ∧
    createDeltaDataFor pack' (getUuid r) (Delta_getUuid delta) = data ∧
    serializeDeltaData pack' r' i = Some data.
Proof.
  unfold Array_size. intros Hpack Hflush Hi Hlater. unfold flushData in Hflush.
  destruct (forLoop _ _ _) as [[p ws]|] eqn:Hloop; [|done]. simpl in Hflush. simplify_eq.
  destruct (flush_loop _ _ _ _ _ Hpack (le_n _) Hloop) as [Hlen Hread].
  destruct (lookup_lt_is_Some_2 (deltas r) (Z.to_nat i)) as [delta Hd]; [lia|].
  destruct (lookup_lt_is_Some_2 (deltasData r) (Z.to_nat i)) as [data Hv]; [lia|].
  assert (createDeltaDataFor pack' (getUuid r) (Delta_getUuid delta) = data) as Hback.
  { apply (Hread (Z.to_nat i)); [lia|done|done|].
    intros j delta' Hj Hd'. by apply (Hlater j). }
  exists delta, data. unfold getDelta, serializeDeltaData, OwnedArray_get, Array_size.
  cbn [deltas deltasData with_deltasData getUuid vcsUuid length].
  destruct (Z.leb_spec 0 i); [|lia].
  destruct (Z.ltb_spec i (Z.of_nat 0)); [lia|].
  rewrite Hd. simpl. split_and!; [done|done|done|done|].
  unfold getUuid in Hback. by rewrite Hback.
Qed.

(** The node [serialize] builds before it appends the deltas. *)
Lemma serialize_header r ty name tag :
  let tree :=
    setProperty
      (setProperty
         (setProperty (serializeVCSUuid r (newTree Keys.revisionItem))
            Keys.revisionItemType (var_int ty))
         Keys.revisionItemName (var_string name))
      Keys.revisionItemDiffLogic (var_string tag) in
  isValid tree = true ∧ hasType tree Keys.revisionItem = true ∧
  getChildren tree = [] ∧
  (∀ dflt, getProperty tree Keys.revisionItemType dflt = var_int ty) ∧
  (∀ dflt, getProperty tree Keys.revisionItemName dflt = var_string name) ∧
  (∀ dflt, getProperty tree Keys.revisionItemDiffLogic dflt = var_string tag).
Proof.
  intros tree. subst tree. unfold serializeVCSUuid.
  split_and!.
  - by rewrite !isValid_setProperty.
  - by rewrite !hasType_setProperty.
  - by rewrite !getChildren_setProperty.
  - intros dflt. rewrite !getProperty_setProperty_ne by done.
    apply getProperty_setProperty_eq. by rewrite !isValid_setProperty.
  - intros dflt. rewrite getProperty_setProperty_ne by done.
    apply getProperty_setProperty_eq. by rewrite !isValid_setProperty.
  - intros dflt. apply getProperty_setProperty_eq. by rewrite !isValid_setProperty.
Qed.

(** Loading the serialized deltas, each into a new delta, gives back their
    identities in order. *)
Lemma reload_delta_ids (ds : list Delta) :
  (∀ d, d ∈ ds → DeltaRoundTrips d) →
  Delta_getUuid <$>
    imap (λ k e, Delta_deserialize (Delta_new k) e) (Delta_serialize <$> ds) =
  Delta_getUuid <$> ds.
Proof.
  intros Hrt. rewrite fmap_imap, imap_fmap.
  rewrite (imap_ext _ (λ _, Delta_getUuid)); [apply imap_const|].
  intros i d Hd. simpl. apply Hrt. by eapply list_elem_of_lookup_2.
Qed.

(** C3 (as amended): an item that has a logic bound serializes to a tree,
    and when the factory knows the type tag of that logic and the deltas
    read their ids back from their own serialized form, deserializing that
    tree gives the same type, the same name, a logic of the same type tag,
    and the same delta ids in the same order. *)
Theorem C3_round_trip_of_a_bound_item r l :
  getDiffLogic r = Some l →
  LogicRoundTrips l →
  (∀ d, d ∈ deltas r → DeltaRoundTrips d) →
  ∃ tree, serialize r = Some tree ∧
    ∀ r0, let r' := deserialize r0 tree in
      getType r' = getType r ∧
      getVCSName r' = getVCSName r ∧
      DiffLogic_getType <$> getDiffLogic r' = Some (DiffLogic_getType l) ∧
      Delta_getUuid <$> deltas r' = Delta_getUuid <$> deltas r.
Proof.
  intros Hl (l' & Hfor & Htag) Hds. unfold serialize. rewrite Hl. cbn [mbind option_bind].
  eexists. split; [reflexivity|]. intros r0.
  destruct (serialize_header r (getType r) (getVCSName r) (DiffLogic_getType l))
    as (Hv & Hty & Hch & Hp1 & Hp2 & Hp3).
  match goal with |- context [foldl ?f ?t (deltas r)] =>
    destruct (foldl_appendChild Delta_serialize (deltas r) t Hv) as (Hv' & Hty' & Hp' & Hch');
      [intros d Hd; apply (Hds d Hd)|];
    set (tree := foldl f t (deltas r)) in *
  end.
  cbn zeta in Hv', Hty', Hp', Hch'.
  assert (rootOf tree = tree) as Hroot.
  { unfold rootOf. by rewrite Hty', Hty. }
  cbn zeta. unfold deserialize. rewrite Hroot, Hv'.
  cbn [negb getType getVCSName getDiffLogic vcsItemType description logic deltas
       with_deltas with_logic with_vcsItemType with_description].
  unfold getPropertyOrVoid. rewrite !Hp', Hp1, Hp2, Hp3, Hch', Hch. simpl.
  rewrite Hfor. simpl. split_and!; [done|done|by rewrite Htag|].
  by apply reload_delta_ids.
Qed.

End RevisionItemFacts.

(** ** The objects behind the payloads *)

Section SharingFacts.
Import Sharing.
Context `{StringApi} `{DiffLogicApi} `{PackApi}.

Lemma Cell_ind_children (P : Cell → Prop) :
  (∀ a ty ps cs, Forall P cs → P (CellAt a ty ps cs)) → ∀ c, P c.
Proof.
  intros Hstep. fix IH 1. intros [a ty ps cs]. apply Hstep.
  induction cs as [|c cs IHcs]; constructor; [apply IH|apply IHcs].
Qed.

(** The loop of the copy constructor over the children: the copies show
    what the children show, and their objects are new. *)
Lemma copy_children cs :
  Forall (λ c, ∀ next,
            objectOf (copyCell c next).1 = objectOf c ∧
            next < (copyCell c next).2 ∧
            Forall (λ a, next ≤ a < (copyCell c next).2)
                   (cellAddresses (copyCell c next).1)) cs →
  ∀ acc next,
    let copied :=
      foldl (λ acc child, let r := copyCell child acc.2 in (acc.1 ++ [r.1], r.2))
            (acc, next) cs in
    map objectOf copied.1 = map objectOf acc ++ map objectOf cs ∧
    next ≤ copied.2 ∧
    ∀ a, a ∈ concat (map cellAddresses copied.1) →
         a ∈ concat (map cellAddresses acc) ∨ next ≤ a < copied.2.
Proof.
  induction 1 as [|c cs Hc _ IH]; intros acc next; cbn [foldl].
  - cbn [fst snd map]. rewrite app_nil_r. split_and!; [done|done|by left].
  - cbn [fst snd]. destruct (Hc next) as (Hobj & Hlt & Hnew).
    destruct (IH (acc ++ [(copyCell c next).1]) (copyCell c next).2)
      as (Hmap & Hle & Haddr).
    cbn zeta in *. split_and!.
    + rewrite Hmap, map_app. cbn [map]. rewrite Hobj, <- app_assoc. done.
    + lia.
    + intros a Ha. destruct (Haddr a Ha) as [Hold|Hin]; [|right; lia].
      rewrite map_app, concat_app in Hold. cbn [map concat] in Hold.
      rewrite app_nil_r in Hold. apply elem_of_app in Hold as [Hold|Hold]; [by left|].
      right. rewrite Forall_forall in Hnew. specialize (Hnew a Hold). lia.
Qed.

Lemma copyCell_unfold a ty ps cs next :
  copyCell (CellAt a ty ps cs) next =
  (CellAt next ty ps
     (foldl (λ acc child, let r := copyCell child acc.2 in (acc.1 ++ [r.1], r.2))
            ([], S next) cs).1,
   (foldl (λ acc child, let r := copyCell child acc.2 in (acc.1 ++ [r.1], r.2))
          ([], S next) cs).2).
Proof. reflexivity. Qed.

(** A copy shows what the original shows, and each of its objects is a new
    one. *)
Lemma copyCell_spec c next :
  objectOf (copyCell c next).1 = objectOf c ∧
  next < (copyCell c next).2 ∧
  Forall (λ a, next ≤ a < (copyCell c next).2) (cellAddresses (copyCell c next).1).
Proof.
  revert next. induction c as [a ty ps cs IH] using Cell_ind_children. intros next.
  destruct (copy_children cs IH [] (S next)) as (Hmap & Hle & Haddr).
  rewrite copyCell_unfold. cbn zeta in *. cbn [fst snd objectOf cellAddresses].
  unfold Address in *. split_and!.
  - f_equal. exact Hmap.
  - lia.
  - constructor; [lia|]. apply Forall_forall. intros b Hb.
    destruct (Haddr b Hb) as [Hnil|Hin]; [|lia].
    cbn [map concat] in Hnil. by apply elem_of_nil in Hnil.
Qed.

Lemma createCopyAt_spec h next :
  content (createCopyAt h next).1 = content h ∧
  next ≤ (createCopyAt h next).2 ∧
  Forall (λ a, next ≤ a < (createCopyAt h next).2) (addresses (createCopyAt h next).1).
Proof.
  destruct h as [|c]; cbn [createCopyAt fst snd content addresses].
  - split_and!; [done|done|constructor].
  - destruct (copyCell_spec c next) as (Hobj & Hlt & Hnew).
    split_and!; [by rewrite Hobj|lia|done].
Qed.

(** A write to an object leaves alone what does not reach that object. *)
Lemma writeCell_elsewhere a name v c :
  a ∉ cellAddresses c → writeCell a name v c = c.
Proof.
  induction c as [a' ty ps cs IH] using Cell_ind_children.
  cbn [cellAddresses writeCell]. intros Hnot.
  apply not_elem_of_cons in Hnot as [Hne Hcs].
  rewrite decide_False by done. f_equal.
  induction IH as [|c cs Hc _ IHcs]; cbn [map]; [done|].
  cbn [map concat] in Hcs. apply not_elem_of_app in Hcs as [Hc' Hcs'].
  by rewrite Hc, IHcs.
Qed.

Lemma writeThrough_elsewhere a name v h :
  a ∉ addresses h → writeThrough a name v h = h.
Proof.
  destruct h as [|c]; cbn [addresses writeThrough]; [done|].
  intros Hnot. by rewrite writeCell_elsewhere.
Qed.

(** A write to the object a handle refers to is [setProperty] on what the
    handle shows, when the object does not occur below itself. *)
Lemma writeThrough_root a ty ps cs name v :
  a ∉ concat (map cellAddresses cs) →
  content (writeThrough a name v (handleTo (CellAt a ty ps cs))) =
  setProperty (content (handleTo (CellAt a ty ps cs))) name v.
Proof.
  intros Hnot. cbn [writeThrough writeCell content objectOf setProperty].
  rewrite decide_True by done. do 3 f_equal.
  induction cs as [|c cs IHcs]; cbn [map]; [done|].
  cbn [map concat] in Hnot. apply not_elem_of_app in Hnot as [Hc Hcs].
  by rewrite writeCell_elsewhere, IHcs.
Qed.

(** The [while] loop in closed form: turn [j] allocates the dummy tree at
    the [j]-th address from the allocator on. *)
Lemma addDummiesAt_closed k data next :
  addDummiesAt k data next =
  (data ++ ((λ j, handleTo (CellAt (next + j) "dummy" [] [])) <$> seq 0 k), next + k).
Proof.
  revert data next. induction k as [|k IH]; intros data next.
  - cbn [addDummiesAt seq fmap list_fmap]. by rewrite app_nil_r, Nat.add_0_r.
  - cbn [addDummiesAt newTreeAt fst snd]. rewrite IH.
    rewrite <- app_assoc. cbn [seq]. rewrite fmap_cons, <- fmap_S_seq, <- list_fmap_compose.
    rewrite Nat.add_0_r. f_equal; [|lia]. f_equal. cbn [app]. f_equal.
    apply list_fmap_ext. intros _ j _. cbn. do 2 f_equal. lia.
Qed.

Lemma importScanAt_no_match rest i source u data next :
  Forall (λ d, Delta_getUuid d ≠ u) rest →
  importScanAt rest i source u data next = (data, next).
Proof.
  intros Hall. revert i. induction Hall as [|d rest Hd _ IH]; intros i; simpl; [done|].
  by rewrite decide_False.
Qed.

Lemma importScanAt_first_match rest i k d source u data next :
  rest !! k = Some d → Delta_getUuid d = u →
  (∀ j d', j < k → rest !! j = Some d' → Delta_getUuid d' ≠ u) →
  importScanAt rest i source u data next =
    (<[i + k := (createCopyAt source (next + (S (i + k) - length data))).1]>
       (data ++ ((λ j, handleTo (CellAt (next + j) "dummy" [] [])) <$>
                   seq 0 (S (i + k) - length data))),
     (createCopyAt source (next + (S (i + k) - length data))).2).
Proof.
  revert i k. induction rest as [|d0 rest IH]; intros i k Hk Hu Hfirst; [done|].
  destruct k as [|k]; cbn [importScanAt]; simpl in Hk.
  - simplify_eq. rewrite decide_True by done.
    rewrite addDummiesAt_closed, Nat.add_0_r. cbn [fst snd]. f_equal.
    apply Array_set_nat. rewrite length_app, length_fmap, length_seq. lia.
  - rewrite decide_False by (apply (Hfirst 0); [lia|done]).
    rewrite (IH (S i) k); [|done|done|].
    + by replace (S i + k) with (i + S k) by lia.
    + intros j d' Hj Hd'. apply (Hfirst (S j)); [lia|done].
Qed.

(** C8: importing a payload for a uuid that none of the deltas carries
    changes nothing and allocates nothing.  When some delta carries it, the
    first such delta has its slot of the pending cache overwritten with a
    deep copy of the payload, after the cache has been extended with dummy
    trees up to that slot, and the deltas stay as they are.  The copy shows
    what the payload shows; each of its objects is allocated by the call,
    so that it shares no object with the payload or with an older slot, and
    a later write to any object that existed before the call does not
    reach it.  The other old slots keep their handles, and each new slot
    before the copy is a dummy tree of its own. *)
Theorem C8_import_sets_the_matching_slot r u :
  (∀ payload,
     (Forall (λ d, Delta_getUuid d ≠ u) (deltas r) →
        importDataForDelta r payload u = r) ∧
     ((∃ d, d ∈ deltas r ∧ Delta_getUuid d = u) →
        ∃ i d, deltas r !! i = Some d ∧ Delta_getUuid d = u ∧
          (∀ j d', j < i → deltas r !! j = Some d' → Delta_getUuid d' ≠ u) ∧
          let r' := importDataForDelta r payload u in
          deltas r' = deltas r ∧
          deltasData r' =
            <[i := createCopy payload]>
              (deltasData r ++
                 replicate (S i - length (deltasData r)) (newTree "dummy")) ∧
          length (deltasData r') = length (deltasData r) `max` S i ∧
          deltasData r' !! i = Some payload)) ∧
  (∀ (data : list Handle) (source : Handle) (next : Address),
     content <$> data = deltasData r →
     Forall (λ a, a < next) (addresses source) →
     Forall (λ h, Forall (λ a, a < next) (addresses h)) data →
     let after := importDataForDeltaAt (deltas r) data source u next in
     content <$> after.1 = deltasData (importDataForDelta r (content source) u) ∧
     next ≤ after.2 ∧
     Forall (λ h, Forall (λ a, a < after.2) (addresses h)) after.1 ∧
     (Forall (λ d, Delta_getUuid d ≠ u) (deltas r) → after = (data, next)) ∧
     (∀ i d, deltas r !! i = Some d → Delta_getUuid d = u →
        (∀ j d', j < i → deltas r !! j = Some d' → Delta_getUuid d' ≠ u) →
        ∃ deepCopy,
          after.1 !! i = Some deepCopy ∧
          content deepCopy = content source ∧
          Forall (λ a, next ≤ a < after.2) (addresses deepCopy) ∧
          (∀ a, a ∈ addresses deepCopy →
             (a ∉ addresses source) ∧ (∀ h, h ∈ data → a ∉ addresses h)) ∧
          (∀ a name v, a < next → writeThrough a name v deepCopy = deepCopy) ∧
          length after.1 = length data `max` S i ∧
          (∀ j, j ≠ i → j < length data → after.1 !! j = data !! j) ∧
          (∀ j, length data ≤ j < i →
             after.1 !! j =
             Some (handleTo (CellAt (next + (j - length data)) "dummy" [] []))))).
Proof.
  split.
  - intros payload. split.
    + intros Hall. unfold importDataForDelta.
      rewrite importScan_no_match by done. apply with_deltasData_same.
    + intros (d & Hin & Hu).
      destruct (list_find_elem_of (λ d, Delta_getUuid d = u) _ _ Hin Hu)
        as [[i d'] Hfind].
      apply list_find_Some in Hfind as (Hi & Hd' & Hfirst).
      exists i, d'. split_and!; [done|done|naive_solver|].
      cbn zeta. unfold importDataForDelta. cbn [deltas deltasData with_deltasData].
      rewrite (importScan_first_match _ 0 i d') by naive_solver.
      rewrite Nat.add_0_l. split_and!; [done|done| |].
      * rewrite length_insert, length_app, length_replicate. lia.
      * rewrite createCopy_id. apply list_lookup_insert_eq.
        rewrite length_app, length_replicate. lia.
  - intros data source next Hdata Hsource Hold. cbn zeta.
    unfold importDataForDeltaAt, importDataForDelta.
    cbn [deltas deltasData with_deltasData].
    assert (length (deltasData r) = length data) as Hlen
      by (by rewrite <- Hdata, length_fmap).
    destruct (list_find (λ d, Delta_getUuid d = u) (deltas r)) as [[i d]|] eqn:Hfind.
    + apply list_find_Some in Hfind as (Hi & Hd & Hfirst).
      assert (∀ j d', j < i → deltas r !! j = Some d' → Delta_getUuid d' ≠ u)
        as Hfirst' by (intros j d' Hj Hd'; by apply (Hfirst j d')).
      rewrite (importScanAt_first_match _ 0 i d) by done.
      rewrite (importScan_first_match _ 0 i d) by done.
      rewrite Nat.add_0_l. cbn [fst snd].
      destruct (createCopyAt_spec source (next + (S i - length data)))
        as (Hcontent & Hle & Hnew).
      set (copied := createCopyAt source (next + (S i - length data))) in *.
      assert (i < length (data ++ ((λ j, handleTo (CellAt (next + j) "dummy" [] []))
                                     <$> seq 0 (S i - length data)))) as Hslot
        by (rewrite length_app, length_fmap, length_seq; lia).
      split_and!.
      * rewrite list_fmap_insert, fmap_app, Hdata, Hcontent, createCopy_id, Hlen.
        do 2 f_equal. rewrite <- list_fmap_compose.
        generalize (S i - length data). intros n. generalize 0.
        induction n as [|n IHn]; intros start; cbn; [done|]. by rewrite IHn.
      * lia.
      * apply Forall_insert.
        -- apply Forall_app. split.
           ++ eapply Forall_impl; [exact Hold|]. intros h Hh. cbn beta in *.
              eapply Forall_impl; [exact Hh|]. intros a Ha. cbn beta in *. lia.
           ++ apply Forall_fmap, Forall_forall. intros j Hj.
              apply elem_of_seq in Hj. cbn. constructor; [lia|constructor].
        -- eapply Forall_impl; [exact Hnew|]. intros a Ha. cbn beta in *. lia.
      * intros Hall. rewrite Forall_forall in Hall.
        exfalso. apply (Hall d); [by eapply list_elem_of_lookup_2|done].
      * intros i' d' Hi' Hd' Hfirst''.
        assert (i' = i) as ->.
        { destruct (Nat.lt_trichotomy i' i) as [Hlt|[Heq|Hgt]]; [|done|].
          - by destruct (Hfirst' i' d' Hlt Hi').
          - by destruct (Hfirst'' i d Hgt Hi). }
        exists copied.1. split_and!.
        -- by apply list_lookup_insert_eq.
        -- done.
        -- eapply Forall_impl; [exact Hnew|]. intros a Ha. cbn beta in *. lia.
        -- intros a Ha. rewrite Forall_forall in Hnew. specialize (Hnew a Ha).
           split.
           ++ intros Hin. rewrite Forall_forall in Hsource.
              specialize (Hsource a Hin). lia.
           ++ intros h Hh Hin. rewrite Forall_forall in Hold.
              specialize (Hold h Hh). rewrite Forall_forall in Hold.
              specialize (Hold a Hin). lia.
        -- intros a name v Ha. apply writeThrough_elsewhere. intros Hin.
           rewrite Forall_forall in Hnew. specialize (Hnew a Hin). lia.
        -- rewrite length_insert, length_app, length_fmap, length_seq. lia.
        -- intros j Hne Hj. rewrite list_lookup_insert_ne by done.
           by apply lookup_app_l.
        -- intros j Hj. rewrite list_lookup_insert_ne by lia.
           rewrite lookup_app_r by lia. rewrite list_lookup_fmap.
           rewrite lookup_seq_lt by lia. done.
    + apply list_find_None in Hfind.
      rewrite importScanAt_no_match, importScan_no_match by done. cbn [fst snd].
      split_and!; [done|done|done|done|].
      intros i d Hi Hd _. rewrite Forall_forall in Hfind.
      exfalso. apply (Hfind d); [by eapply list_elem_of_lookup_2|done].
Qed.

End SharingFacts.

(** ** The properties on concrete items *)

Section Concrete.
Import Reference.

Lemma refPack_reads_back : PackReadsBack.
Proof.
  split; simpl.
  - intros p item delta data. by rewrite lookup_insert_eq.
  - intros p item delta data item' delta' Hne. by rewrite lookup_insert_ne.
Qed.

Lemma refDelta_round_trips (d : RefDelta) : DeltaRoundTrips d.
Proof.
  split; [done|]. intros this.
  cbn [Delta_getUuid Delta_deserialize Delta_serialize refDelta].
  unfold refDelta_deserialize, refDelta_serialize. cbn [rd_id].
  by rewrite getProperty_setProperty_eq.
Qed.

Lemma refLogic_round_trips (l : RefLogic) : LogicRoundTrips l.
Proof. exists l. by destruct l. Qed.

Lemma int_99 : isInt 99.
Proof. unfold isInt. lia. Qed.

Lemma int_text_99 : isInt (String_getIntValue "99").
Proof. change (isInt 99). apply int_99. Qed.

(** C1, counterexample: the tree whose type attribute is the [int] 99 is
    loaded with type 99, which is none of the enumerators and in particular
    not [Undefined]. *)
Lemma C1_counterexample_type_99_is_kept :
  isValid (rootOf tree99) = true ∧
  getPropertyOrVoid (rootOf tree99) Keys.revisionItemType = var_int 99 ∧
  isInt 99 ∧
  getType (deserialize unboundItem tree99) = 99%Z ∧
  getType (deserialize unboundItem tree99) ≠ Undefined ∧
  getType (deserialize unboundItem tree99) ≠ Added ∧
  getType (deserialize unboundItem tree99) ≠ Removed ∧
  getType (deserialize unboundItem tree99) ≠ Changed.
Proof. split_and!; first [done | apply int_99]. Qed.

Lemma C1_witness :
  (isValid (rootOf tree99) = true ∧
   getPropertyOrVoid (rootOf tree99) Keys.revisionItemType = var_int 99 ∧ isInt 99 ∧
   getType (deserialize snapshot tree99) = 99%Z ∧
   (getType (deserialize snapshot tree99) = Undefined ↔ 99%Z = Undefined)) ∧
  (isValid (rootOf treeWide) = true ∧
   getPropertyOrVoid (rootOf treeWide) Keys.revisionItemType = var_int64 4294967299 ∧
   getType (deserialize snapshot treeWide) = wrapInt 4294967299 ∧
   isInt (getType (deserialize snapshot treeWide)) ∧
   (getType (deserialize snapshot treeWide) = Undefined ↔
    wrapInt 4294967299 = Undefined)) ∧
  (isValid (rootOf treeText) = true ∧
   getPropertyOrVoid (rootOf treeText) Keys.revisionItemType = var_string "99" ∧
   isInt (String_getIntValue "99") ∧
   getType (deserialize snapshot treeText) = String_getIntValue "99") ∧
  (isValid (rootOf treeBare) = true ∧
   rootOf treeBare =
     validTree (Object Keys.revisionItem
                  [(Keys.revisionItemDiffLogic, var_string "track")] []) ∧
   getType (deserialize snapshot treeBare) = Undefined).
Proof.
  split; [|split; [|split]].
  - split; [reflexivity|]. split; [reflexivity|]. split; [apply int_99|].
    apply (proj1 (C1_deserialize_keeps_stored_type snapshot tree99 eq_refl)
             99%Z eq_refl int_99).
  - split; [reflexivity|]. split; [reflexivity|].
    apply (proj1 (proj2 (C1_deserialize_keeps_stored_type snapshot treeWide eq_refl))
             4294967299%Z eq_refl).
  - split; [reflexivity|]. split; [reflexivity|]. split; [apply int_text_99|].
    apply (proj1 (proj2 (proj2 (C1_deserialize_keeps_stored_type snapshot treeText
                                  eq_refl))) "99" eq_refl int_text_99).
  - split; [reflexivity|]. split; [reflexivity|].
    apply (proj2 (proj2 (proj2 (C1_deserialize_keeps_stored_type snapshot treeBare
                                  eq_refl))) _ eq_refl eq_refl).
Defined.



(** C3, counterexample: the item the constructor builds when there is
    nothing to copy has no logic, and [serialize] dereferences the null
    logic: there is no tree to deserialize. *)
Lemma C3_counterexample_unbound_item_has_no_tree :
  RevisionItem_new "item-0" Undefined None = Some unboundItem ∧
  getDiffLogic unboundItem = None ∧
  serialize unboundItem = None.
Proof. by split_and!. Qed.

Lemma C3_witness :
  getDiffLogic snapshot = Some TrackLogic ∧
  LogicRoundTrips TrackLogic ∧
  (∀ d, d ∈ deltas snapshot → DeltaRoundTrips d) ∧
  ∃ tree, serialize snapshot = Some tree ∧
    ∀ r0, let r' := deserialize r0 tree in
      getType r' = getType snapshot ∧
      getVCSName r' = getVCSName snapshot ∧
      DiffLogic_getType <$> getDiffLogic r' = Some (DiffLogic_getType TrackLogic) ∧
      Delta_getUuid <$> deltas r' = Delta_getUuid <$> deltas snapshot.
Proof.
  split; [reflexivity|].
  split; [apply refLogic_round_trips|].
  split; [intros d _; apply refDelta_round_trips|].
  apply (C3_round_trip_of_a_bound_item snapshot TrackLogic).
  - reflexivity.
  - apply refLogic_round_trips.
  - intros d _. apply refDelta_round_trips.
Defined.

Lemma liveItem_has_its_deltas (i : Z) :
  (0 ≤ i < ti_getNumDeltas liveItem)%Z → is_Some (ti_getDelta liveItem i).
Proof.
  simpl. intros Hi. apply lookup_lt_is_Some_2. simpl. lia.
Qed.

Lemma C4_witness :
  (0 ≤ ti_getNumDeltas liveItem)%Z ∧
  (∀ i, (0 ≤ i < ti_getNumDeltas liveItem)%Z → is_Some (ti_getDelta liveItem i)) ∧
  ∃ r, RevisionItem_new "item-0" Added (Some liveItem) = Some r ∧
       getNumDeltas r = ti_getNumDeltas liveItem ∧
       getVCSName r = ti_getVCSName liveItem ∧
       getUuid r = ti_getUuid liveItem ∧
       ∀ i, (0 ≤ i < ti_getNumDeltas liveItem)%Z →
         getDelta r i = Delta_createCopy <$> ti_getDelta liveItem i ∧
         ∀ pack, serializeDeltaData pack r i = Some (ti_serializeDeltaData liveItem i).
Proof.
  split; [simpl; lia|]. split; [apply liveItem_has_its_deltas|].
  apply (C4_copy_captures_payloads "item-0" Added liveItem).
  - simpl. lia.
  - apply liveItem_has_its_deltas.
Defined.

Lemma C5_witness :
  (0 ≤ 0 < getNumDeltas snapshot)%Z ∧
  (((0 < Array_size (deltasData snapshot))%Z →
     ∃ payload, deltasData snapshot !! Z.to_nat 0 = Some payload ∧
                serializeDeltaData snapshotPack snapshot 0 = Some payload) ∧
   ((Array_size (deltasData snapshot) ≤ 0)%Z →
     ∃ delta, deltas snapshot !! Z.to_nat 0 = Some delta ∧
              serializeDeltaData snapshotPack snapshot 0 =
                Some (createDeltaDataFor snapshotPack (getUuid snapshot)
                        (Delta_getUuid delta)))).
Proof.
  assert (0 ≤ 0 < getNumDeltas snapshot)%Z as Hi by (vm_compute; split; congruence).
  split; [exact Hi|].
  apply (C5_two_tier_lookup snapshotPack snapshot 0 Hi).
Defined.

(** The item [clashing] is what loading the serialized form of [repeated]
    and importing two payloads leads to. *)
Lemma clashing_is_reachable :
  ∃ tree, serialize repeated = Some tree ∧
    importDataForDelta
      (importDataForDelta (deserialize unboundItem tree) (payload "two") "d2")
      (payload "one") "d1" = clashing.
Proof. eexists. split; [reflexivity|]. by vm_compute. Qed.

(** C6, counterexample: two deltas of one item carry the same uuid, and the
    cache holds a payload for the first and a dummy for the second.  The
    flush writes both under one key, the pack keeps the last, and
    [serializeDeltaData 0] returns the dummy instead of the payload that was
    pending for delta 0. *)
Lemma C6_counterexample_shared_delta_uuid :
  PackReadsBack ∧
  flushData emptyPack clashing = Some (clashingPack, clashingWrites, flushedClashing) ∧
  (0 ≤ 0 < getNumDeltas clashing)%Z ∧
  deltasData clashing !! 0 = Some (payload "one") ∧
  serializeDeltaData clashingPack flushedClashing 0 = Some (newTree "dummy") ∧
  newTree "dummy" ≠ payload "one".
Proof.
  split; [apply refPack_reads_back|].
  split; [reflexivity|].
  split; [vm_compute; split; congruence|].
  split; [reflexivity|].
  split; [|done].
  unfold serializeDeltaData, clashingPack. simpl.
  rewrite lookup_insert_ne by done. by rewrite lookup_insert_eq.
Qed.

Lemma snapshot_later_uuids_differ (j : nat) (delta delta' : RefDelta) :
  Z.to_nat 0 < j < length (deltasData snapshot) →
  deltas snapshot !! Z.to_nat 0 = Some delta → deltas snapshot !! j = Some delta' →
  Delta_getUuid delta' ≠ Delta_getUuid delta.
Proof.
  simpl. intros Hj Hd Hd'. assert (j = 1) as -> by lia.
  simpl in *. by simplify_eq.
Qed.

Lemma C6_witness :
  PackReadsBack ∧
  flushData emptyPack snapshot = Some (snapshotPack, snapshotWrites, flushedSnapshot) ∧
  (0 ≤ 0 < Array_size (deltasData snapshot))%Z ∧
  (∀ j delta delta',
     Z.to_nat 0 < j < length (deltasData snapshot) →
     deltas snapshot !! Z.to_nat 0 = Some delta → deltas snapshot !! j = Some delta' →
     Delta_getUuid delta' ≠ Delta_getUuid delta) ∧
  ∃ delta data,
    getDelta snapshot 0 = Some delta ∧ deltasData snapshot !! Z.to_nat 0 = Some data ∧
    deltasData flushedSnapshot = [] ∧
    createDeltaDataFor snapshotPack (getUuid snapshot) (Delta_getUuid delta) = data ∧
    serializeDeltaData snapshotPack flushedSnapshot 0 = Some data.
Proof.
  assert (0 ≤ 0 < Array_size (deltasData snapshot))%Z as Hi
    by (vm_compute; split; congruence).
  split; [apply refPack_reads_back|]. split; [reflexivity|]. split; [exact Hi|].
  split; [apply snapshot_later_uuids_differ|].
  apply (C6_flushed_payload_is_read_back emptyPack snapshot snapshotPack
           snapshotWrites flushedSnapshot 0
           refPack_reads_back eq_refl Hi snapshot_later_uuids_differ).
Defined.

Lemma C7_witness :
  flushData emptyPack snapshot = Some (snapshotPack, snapshotWrites, flushedSnapshot) ∧
  deltasData flushedSnapshot = [] ∧
  flushData snapshotPack flushedSnapshot = Some (snapshotPack, [], flushedSnapshot).
Proof.
  split; [reflexivity|].
  apply (C7_second_flush_writes_nothing emptyPack snapshot snapshotPack
           snapshotWrites flushedSnapshot eq_refl).
Defined.

Lemma snapshot_has_d2 : ∃ d, d ∈ deltas snapshot ∧ Delta_getUuid d = "d2".
Proof. exists (mkDelta "d2" "Added"). split; [|done]. simpl. set_solver. Qed.

Lemma snapshot_has_no_d9 : Forall (λ d, Delta_getUuid d ≠ "d9") (deltas snapshot).
Proof. simpl. by repeat constructor. Qed.

Lemma incoming_is_allocated : Forall (λ a, a < 2) (Sharing.addresses incoming).
Proof. repeat constructor. Qed.

Lemma nothing_pending_is_allocated :
  Forall (λ h, Forall (λ a, a < 2) (Sharing.addresses h)) [].
Proof. constructor. Qed.

Lemma d2_comes_second (j : nat) (d' : RefDelta) :
  j < 1 → deltas flushedSnapshot !! j = Some d' → Delta_getUuid d' ≠ "d2".
Proof. intros Hj. destruct j as [|j]; [|lia]. simpl. by intros [= <-]. Qed.

(** What a write through the caller's handle does to a slot that holds
    that handle itself, and not a copy. *)
Lemma write_reaches_a_shared_handle :
  Sharing.content (Sharing.writeThrough 0 "value" (var_string "later") incoming) =
  setProperty (Sharing.content incoming) "value" (var_string "later") ∧
  Sharing.writeThrough 0 "value" (var_string "later") incoming ≠ incoming.
Proof. by split. Qed.

Lemma C8_witness :
  (Forall (λ d, Delta_getUuid d ≠ "d9") (deltas snapshot) ∧
   importDataForDelta snapshot (payload "new") "d9" = snapshot) ∧
  ((∃ d, d ∈ deltas snapshot ∧ Delta_getUuid d = "d2") ∧
   ∃ i d, deltas flushedSnapshot !! i = Some d ∧ Delta_getUuid d = "d2" ∧
     (∀ j d', j < i → deltas flushedSnapshot !! j = Some d' → Delta_getUuid d' ≠ "d2") ∧
     let r' := importDataForDelta flushedSnapshot (payload "new") "d2" in
     deltas r' = deltas flushedSnapshot ∧
     deltasData r' =
       <[i := createCopy (payload "new")]>
         (deltasData flushedSnapshot ++
            replicate (S i - length (deltasData flushedSnapshot)) (newTree "dummy")) ∧
     length (deltasData r') = length (deltasData flushedSnapshot) `max` S i ∧
     deltasData r' !! i = Some (payload "new")) ∧
  (Sharing.content <$> [] = deltasData flushedSnapshot ∧
   Forall (λ a, a < 2) (Sharing.addresses incoming) ∧
   Forall (λ h, Forall (λ a, a < 2) (Sharing.addresses h)) [] ∧
   deltas flushedSnapshot !! 1 = Some (mkDelta "d2" "Added") ∧
   Sharing.importDataForDeltaAt (deltas flushedSnapshot) [] incoming "d2" 2 =
     ([Sharing.handleTo (Sharing.CellAt 2 "dummy" [] []);
       Sharing.handleTo
         (Sharing.CellAt 4 "payload" [("value", var_string "new")]
            [Sharing.CellAt 5 "note" [] []])], 6) ∧
   let after :=
     Sharing.importDataForDeltaAt (deltas flushedSnapshot) [] incoming "d2" 2 in
   ∃ deepCopy,
     after.1 !! 1 = Some deepCopy ∧
     Sharing.content deepCopy = Sharing.content incoming ∧
     Forall (λ a, 2 ≤ a < after.2) (Sharing.addresses deepCopy) ∧
     (∀ a, a ∈ Sharing.addresses deepCopy →
        (a ∉ Sharing.addresses incoming) ∧
        (∀ h, h ∈ ([] : list Sharing.Handle) → a ∉ Sharing.addresses h)) ∧
     (∀ a name v, a < 2 → Sharing.writeThrough a name v deepCopy = deepCopy) ∧
     length after.1 = length ([] : list Sharing.Handle) `max` 2 ∧
     (∀ j, j ≠ 1 → j < length ([] : list Sharing.Handle) →
        after.1 !! j = ([] : list Sharing.Handle) !! j) ∧
     (∀ j, length ([] : list Sharing.Handle) ≤ j < 1 →
        after.1 !! j =
        Some (Sharing.handleTo
                (Sharing.CellAt (2 + (j - length ([] : list Sharing.Handle)))
                   "dummy" [] [])))).
Proof.
  split; [|split].
  - split; [apply snapshot_has_no_d9|].
    apply (proj1 (proj1 (C8_import_sets_the_matching_slot snapshot "d9") (payload "new"))
             snapshot_has_no_d9).
  - split; [apply snapshot_has_d2|].
    apply (proj2 (proj1 (C8_import_sets_the_matching_slot flushedSnapshot "d2")
                    (payload "new"))
             snapshot_has_d2).
  - split; [reflexivity|]. split; [apply incoming_is_allocated|].
    split; [apply nothing_pending_is_allocated|]. split; [reflexivity|].
    split; [reflexivity|].
    apply (proj2 (proj2 (proj2 (proj2
             (proj2 (C8_import_sets_the_matching_slot flushedSnapshot "d2")
                [] incoming 2 eq_refl incoming_is_allocated
                nothing_pending_is_allocated))))
             1 (mkDelta "d2" "Added") eq_refl eq_refl d2_comes_second).
Defined.

Lemma C9_witness :
  (0 ≤ 1)%Z ∧ deltasData snapshot !! Z.to_nat 1 = Some (payload "two") ∧
  serializeDeltaData emptyPack (reset snapshot) 1 = Some (payload "two") ∧
  serializeDeltaData emptyPack (deserialize snapshot tree99) 1 = Some (payload "two").
Proof.
  assert (0 ≤ 1)%Z as Hi by (vm_compute; congruence).
  split; [exact Hi|]. split; [reflexivity|].
  apply (proj2 (proj2 (C9_pending_cache_survives_reload snapshot tree99))
           emptyPack 1%Z (payload "two") Hi eq_refl).
Defined.

End Concrete.

(** ** Further properties of the revision item *)

Section RevisionItemMore.
Context `{StringApi} `{DiffLogicApi} `{PackApi}.

(** The flushing loop gets through [n] turns exactly when there is a delta
    at each of the first [n] indices. *)
Lemma flush_loop_returns r st n :
  is_Some (forLoop n (flushOne r) st) ↔ n ≤ length (deltas r).
Proof.
  induction n as [|n IH].
  - rewrite forLoop_0. split; [lia|eauto].
  - rewrite forLoop_S. split.
    + intros [st' Hst'].
      destruct (forLoop n (flushOne r) st) as [st0|] eqn:Hprev; [|done].
      simpl in Hst'. unfold flushOne in Hst'. rewrite OwnedArray_get_nat in Hst'.
      destruct (deltas r !! n) as [d|] eqn:Hd; [|done].
      apply lookup_lt_Some in Hd. lia.
    + intros Hn. destruct (proj2 IH) as [st0 Hprev]; [lia|]. rewrite Hprev. simpl.
      unfold flushOne. rewrite OwnedArray_get_nat.
      destruct (lookup_lt_is_Some_2 (deltas r) n) as [d Hd]; [lia|].
      rewrite Hd. simpl. eauto.
Qed.

(** The writes of the flushing loop, turn by turn. *)
Lemma flush_loop_trace r pack n p ws :
  n ≤ length (deltasData r) →
  forLoop n (flushOne r) (pack, []) = Some (p, ws) →
  ws = zip_with (λ d v, (getUuid r, Delta_getUuid d, v))
         (take n (deltas r)) (take n (deltasData r)) ∧
  p = foldl (λ p (w : PackWrite), setDeltaDataFor p w.1.1 w.1.2 w.2) pack ws.
Proof.
  revert p ws. induction n as [|n IH]; intros p ws Hn Hloop.
  - rewrite forLoop_0 in Hloop. by simplify_eq.
  - rewrite forLoop_S in Hloop.
    destruct (forLoop n (flushOne r) (pack, [])) as [[p0 ws0]|] eqn:Hprev; [|done].
    destruct (IH p0 ws0) as [Hws Hp]; [lia|done|].
    simpl in Hloop. unfold flushOne in Hloop.
    rewrite OwnedArray_get_nat, Array_get_nat in Hloop.
    destruct (deltas r !! n) as [d|] eqn:Hd; [|done].
    destruct (lookup_lt_is_Some_2 (deltasData r) n) as [v Hv]; [lia|].
    rewrite Hv in Hloop. simpl in Hloop. simplify_eq.
    rewrite (take_S_r _ _ _ Hd), (take_S_r _ _ _ Hv).
    apply lookup_lt_Some in Hd.
    rewrite zip_with_app by (rewrite !length_take; lia).
    split; [done|]. by rewrite foldl_app.
Qed.

(** X1: [flushData] returns exactly when the pending cache is not longer
    than the list of deltas; with more pending payloads than deltas it
    dereferences the null pointer [deltas[i]]. *)
Theorem X1_flush_returns_iff_cache_fits pack r :
  is_Some (flushData pack r) ↔ length (deltasData r) ≤ length (deltas r).
Proof.
  unfold flushData. rewrite <- (flush_loop_returns r (pack, [])).
  destruct (forLoop _ _ _); simpl; split; intros [? ?]; by eauto.
Qed.

(** X2: a flush that returns has written each pending payload once, in
    index order, under the item's uuid and the uuid of the delta at the
    same index; the pack it leaves is the old pack after those writes, and
    the item differs only in its emptied cache. *)
Theorem X2_flush_writes_each_payload_once pack r pack' writes r' :
  flushData pack r = Some (pack', writes, r') →
  writes = zip_with (λ d v, (getUuid r, Delta_getUuid d, v)) (deltas r) (deltasData r) ∧
  length writes = length (deltasData r) ∧
  pack' = foldl (λ p (w : PackWrite), setDeltaDataFor p w.1.1 w.1.2 w.2) pack writes ∧
  r' = with_deltasData [] r.
Proof.
  intros Hflush.
  unfold flushData in Hflush.
  destruct (forLoop _ _ _) as [[p ws]|] eqn:Hloop; [|done]. simpl in Hflush. simplify_eq.
  assert (length (deltasData r) ≤ length (deltas r)) as Hfit.
  { apply (flush_loop_returns r (pack, [])). eauto. }
  destruct (flush_loop_trace _ _ _ _ _ (le_n _) Hloop) as [Hws Hp].
  rewrite (take_ge (deltasData r)), zip_with_take_l in Hws by lia.
  split_and!; [done| |done|done].
  rewrite Hws, length_zip_with. lia.
Qed.

(** Writes under other keys leave a key as it was. *)
Lemma foldl_writes_other_key pack (ws : list PackWrite) item delta :
  PackReadsBack →
  Forall (λ w : PackWrite, (w.1.1, w.1.2) ≠ (item, delta)) ws →
  createDeltaDataFor
    (foldl (λ p (w : PackWrite), setDeltaDataFor p w.1.1 w.1.2 w.2) pack ws) item delta =
  createDeltaDataFor pack item delta.
Proof.
  intros [_ Hother] Hall. revert pack.
  induction Hall as [|w ws Hw _ IH]; intros pack; simpl; [done|].
  rewrite IH. by apply Hother.
Qed.

(** X3: a flush leaves alone every key of the pack that belongs to another
    item, and every key of its own item whose delta uuid is not that of a
    delta with a pending payload. *)
Theorem X3_flush_leaves_other_keys pack r pack' writes r' item delta :
  PackReadsBack →
  flushData pack r = Some (pack', writes, r') →
  item ≠ getUuid r ∨
    Forall (λ d, Delta_getUuid d ≠ delta) (take (length (deltasData r)) (deltas r)) →
  createDeltaDataFor pack' item delta = createDeltaDataFor pack item delta.
Proof.
  intros Hpack Hflush Hkey. unfold flushData in Hflush.
  destruct (forLoop _ _ _) as [[p ws]|] eqn:Hloop; [|done]. simpl in Hflush. simplify_eq.
  destruct (flush_loop_trace _ _ _ _ _ (le_n _) Hloop) as [-> ->].
  apply foldl_writes_other_key; [done|].
  apply Forall_lookup. intros i w Hw.
  apply lookup_zip_with_Some in Hw as (d & v & -> & Hd & Hv). simpl.
  intros Heq. simplify_eq. destruct Hkey as [Hitem|Hdelta]; [done|].
  by apply (proj1 (Forall_lookup _ _) Hdelta i d).
Qed.

(** The pending cache after an import, by the first delta that carries the
    uuid. *)
Lemma importData_closed r payload u :
  deltasData (importDataForDelta r payload u) =
    match list_find (λ d, Delta_getUuid d = u) (deltas r) with
    | Some (i, _) =>
        <[i := createCopy payload]>
          (deltasData r ++ replicate (S i - length (deltasData r)) (newTree "dummy"))
    | None => deltasData r
    end.
Proof.
  unfold importDataForDelta. cbn [deltasData with_deltasData].
  destruct (list_find _ _) as [[i d]|] eqn:Hfind.
  - apply list_find_Some in Hfind as (Hi & Hd & Hfirst).
    rewrite (importScan_first_match _ 0 i d) by naive_solver. by rewrite Nat.add_0_l.
  - apply list_find_None in Hfind. by apply importScan_no_match.
Qed.

Lemma deltas_importDataForDelta r payload u :
  deltas (importDataForDelta r payload u) = deltas r.
Proof. done. Qed.

(** X4: after an import for a uuid that some delta carries,
    [serializeDeltaData] at the first index with that uuid returns the
    imported payload, whatever the pack holds. *)
Theorem X4_import_then_read r payload u :
  (∃ d, d ∈ deltas r ∧ Delta_getUuid d = u) →
  ∃ i d, deltas r !! i = Some d ∧ Delta_getUuid d = u ∧
    (∀ j d', j < i → deltas r !! j = Some d' → Delta_getUuid d' ≠ u) ∧
    ∀ pack, serializeDeltaData pack (importDataForDelta r payload u) (Z.of_nat i) =
            Some payload.
Proof.
  intros (d & Hin & Hu).
  destruct (list_find_elem_of (λ d, Delta_getUuid d = u) _ _ Hin Hu) as [[i d'] Hfind].
  pose proof Hfind as (Hi & Hd' & Hfirst)%list_find_Some.
  exists i, d'. split_and!; [done|done|naive_solver|].
  intros pack. apply serializeDeltaData_cached; [lia|].
  rewrite Nat2Z.id, importData_closed, Hfind, createCopy_id.
  apply list_lookup_insert_eq. rewrite length_app, length_replicate. lia.
Qed.

(** X5: an import changes no pending payload other than that of the first
    delta that carries the uuid: every other slot keeps its payload, be its
    delta one with another uuid, a later delta with the same uuid, or
    none. *)
Theorem X5_import_keeps_other_payloads r payload u j v :
  deltasData r !! j = Some v →
  ¬ (∃ d, deltas r !! j = Some d ∧ Delta_getUuid d = u ∧
          ∀ k d', k < j → deltas r !! k = Some d' → Delta_getUuid d' ≠ u) →
  deltasData (importDataForDelta r payload u) !! j = Some v.
Proof.
  intros Hv Hj. rewrite importData_closed.
  destruct (list_find _ _) as [[i d]|] eqn:Hfind; [|done].
  apply list_find_Some in Hfind as (Hi & Hd & Hfirst).
  assert (i ≠ j).
  { intros ->. apply Hj. exists d. split_and!; [done|done|].
    intros k d' Hk Hd'. by apply (Hfirst k d'). }
  rewrite list_lookup_insert_ne by done. by apply lookup_app_l_Some.
Qed.

(** X6: of two imports for the same uuid the second one wins: the item is
    the same as if only the second had been made. *)
Theorem X6_second_import_replaces_first r payload1 payload2 u :
  importDataForDelta (importDataForDelta r payload1 u) payload2 u =
  importDataForDelta r payload2 u.
Proof.
  assert (∀ r1 r2 : RevisionItem,
    vcsUuid r1 = vcsUuid r2 → description r1 = description r2 →
    vcsItemType r1 = vcsItemType r2 → logic r1 = logic r2 →
    deltas r1 = deltas r2 → deltasData r1 = deltasData r2 → r1 = r2) as Hext.
  { intros [] [] ?; simpl in *; congruence. }
  apply Hext; try done.
  rewrite (importData_closed (importDataForDelta r payload1 u)).
  rewrite deltas_importDataForDelta, !importData_closed.
  destruct (list_find _ _) as [[i d]|]; [|done].
  rewrite length_insert, length_app, length_replicate.
  replace (S i - (length (deltasData r) + (S i - length (deltasData r)))) with 0 by lia.
  simpl. by rewrite app_nil_r, list_insert_insert_eq.
Qed.

(** X7: an import never makes the pending cache longer than the list of
    deltas, so a flush that would have returned before the import still
    returns after it. *)
Theorem X7_import_keeps_cache_within_deltas pack r payload u :
  length (deltasData r) ≤ length (deltas r) →
  length (deltasData (importDataForDelta r payload u)) ≤
    length (deltas (importDataForDelta r payload u)) ∧
  is_Some (flushData pack (importDataForDelta r payload u)).
Proof.
  intros Hfit.
  assert (length (deltasData (importDataForDelta r payload u)) ≤
          length (deltas (importDataForDelta r payload u))) as Hfit'.
  { rewrite deltas_importDataForDelta, importData_closed.
    destruct (list_find _ _) as [[i d]|] eqn:Hfind; [|done].
    apply list_find_Some in Hfind as (Hi%lookup_lt_Some & _).
    rewrite length_insert, length_app, length_replicate. lia. }
  split; [done|]. unfold flushData.
  destruct (proj2 (flush_loop_returns (importDataForDelta r payload u) (pack, []) _) Hfit')
    as [st ->]. simpl. eauto.
Qed.

Lemma rootOf_findChild cs :
  rootOf (findChild cs Keys.revisionItem) = findChild cs Keys.revisionItem.
Proof.
  induction cs as [|c cs IH]; simpl; [done|].
  destruct (decide (objType c = Keys.revisionItem)) as [Hc|Hc]; [|done].
  unfold rootOf. simpl. by rewrite bool_decide_eq_true_2.
Qed.

(** X8: a tree that is not itself a revision item is loaded exactly as its
    first child of that type would be. *)
Theorem X8_deserialize_looks_one_level_down r tree :
  hasType tree Keys.revisionItem = false →
  deserialize r tree = deserialize r (getChildWithName tree Keys.revisionItem).
Proof.
  intros Hty.
  assert (rootOf (getChildWithName tree Keys.revisionItem) = rootOf tree) as Hroot.
  { unfold rootOf at 2. rewrite Hty.
    destruct tree as [|o]; [done|]. apply rootOf_findChild. }
  unfold deserialize. by rewrite Hroot.
Qed.

(** Every child of the node read becomes a delta. *)
Lemma length_deltas_deserialize r tree :
  length (deltas (deserialize r tree)) = length (getChildren (rootOf tree)).
Proof.
  unfold deserialize. destruct (rootOf tree) as [|o]; simpl; [done|].
  by rewrite length_imap.
Qed.

(** X9: loading a tree with fewer deltas than the item has pending payloads
    leaves more pending payloads than deltas, and the next flush
    dereferences a null delta. *)
Theorem X9_flush_after_shorter_reload_fails pack r tree :
  length (getChildren (rootOf tree)) < length (deltasData r) →
  flushData pack (deserialize r tree) = None.
Proof.
  intros Hlt. apply eq_None_not_Some. unfold flushData. intros [res Hres].
  destruct (forLoop _ _ _) as [st|] eqn:Hloop; [|done].
  assert (is_Some (forLoop (length (deltasData (deserialize r tree)))
                     (flushOne (deserialize r tree)) (pack, []))) as Hsome by eauto.
  apply flush_loop_returns in Hsome.
  rewrite deltasData_deserialize, length_deltas_deserialize in Hsome. lia.
Qed.

(** Appending children one after the other keeps the node and its
    properties, and adds the valid ones in order. *)
Lemma foldl_appendChild_filter {A} (f : A → ValueTree) (xs : list A) t :
  isValid t = true →
  let t' := foldl (λ tree x, appendChild tree (f x)) t xs in
  isValid t' = true ∧
  (∀ ty, hasType t' ty = hasType t ty) ∧
  (∀ name dflt, getProperty t' name dflt = getProperty t name dflt) ∧
  getChildren t' = getChildren t ++ filter (λ c, isValid c = true) (f <$> xs).
Proof.
  revert t. induction xs as [|x xs IH]; intros t Hv; cbn [foldl].
  - cbn. by rewrite app_nil_r.
  - destruct t as [|[ty ps cs]]; [done|]. rewrite fmap_cons, filter_cons.
    destruct (f x) as [|c] eqn:Hfx; cbn [appendChild].
    + rewrite decide_False by done. by apply (IH (validTree (Object ty ps cs))).
    + rewrite decide_True by done.
      destruct (IH (validTree (Object ty ps (cs ++ [c]))) eq_refl)
        as (Hv1 & Hv2 & Hv3 & Hv4).
      split_and!; [done|done|done|].
      rewrite Hv4. simpl. rewrite fmap_app. simpl. by rewrite <- app_assoc.
Qed.

(** X10: [serialize] returns exactly when a logic is bound.  The tree it
    returns is a revision item node that carries the type, the name and the
    type tag of the logic, and whose children are the serialized deltas in
    order, without those that serialized to an invalid tree. *)
Theorem X10_serialize_shape r :
  (serialize r = None ↔ getDiffLogic r = None) ∧
  ∀ l, getDiffLogic r = Some l →
    ∃ tree, serialize r = Some tree ∧
      hasType tree Keys.revisionItem = true ∧
      getPropertyOrVoid tree Keys.revisionItemType = var_int (getType r) ∧
      getPropertyOrVoid tree Keys.revisionItemName = var_string (getVCSName r) ∧
      getPropertyOrVoid tree Keys.revisionItemDiffLogic =
        var_string (DiffLogic_getType l) ∧
      getChildren tree =
        filter (λ c, isValid c = true) (Delta_serialize <$> deltas r).
Proof.
  split.
  - unfold serialize. by destruct (getDiffLogic r).
  - intros l Hl. unfold serialize. rewrite Hl. cbn [mbind option_bind].
    eexists. split; [reflexivity|].
    destruct (serialize_header r (getType r) (getVCSName r) (DiffLogic_getType l))
      as (Hv & Hty & Hch & Hp1 & Hp2 & Hp3).
    match goal with |- context [foldl ?f ?t (deltas r)] =>
      destruct (foldl_appendChild_filter Delta_serialize (deltas r) t Hv)
        as (Hv' & Hty' & Hp' & Hch')
    end.
    cbn zeta in Hv', Hty', Hp', Hch'. unfold getPropertyOrVoid.
    rewrite Hty', !Hp', Hch', Hch. by split_and!.
Qed.

(** X11: the pending payloads are no part of the serialized form: an
    import, and a flush that returns, leave [serialize] with the same
    result. *)
Theorem X11_serialize_ignores_payloads r :
  (∀ payload u, serialize (importDataForDelta r payload u) = serialize r) ∧
  (∀ pack pack' writes r',
     flushData pack r = Some (pack', writes, r') → serialize r' = serialize r).
Proof.
  split; [done|]. intros pack pack' writes r' Hflush. unfold flushData in Hflush.
  destruct (forLoop _ _ _) as [[p ws]|]; simplify_eq/=. done.
Qed.

(** X13: an index below zero is answered with an invalid tree, without
    touching the pack; an index at or beyond both the pending cache and the
    deltas dereferences a null delta. *)
Theorem X13_serializeDeltaData_out_of_range pack r (i : Z) :
  ((i < 0)%Z → serializeDeltaData pack r i = Some invalidTree) ∧
  ((Array_size (deltasData r) ≤ i)%Z → (getNumDeltas r ≤ i)%Z →
     serializeDeltaData pack r i = None).
Proof.
  unfold serializeDeltaData, getNumDeltas, Array_size, Array_get, OwnedArray_get.
  split.
  - intros Hi. destruct (Z.ltb_spec i (Z.of_nat (length (deltasData r)))); [|lia].
    by destruct (Z.leb_spec 0 i); [lia|].
  - intros Hc Hd. destruct (Z.ltb_spec i (Z.of_nat (length (deltasData r)))); [lia|].
    destruct (Z.leb_spec 0 i); [|done].
    rewrite (proj2 (lookup_ge_None _ _)) by lia. done.
Qed.

(** X12: a snapshot of a tracked item whose delta copies carry pairwise
    distinct uuids can always be flushed, and afterwards the pack holds,
    under the tracked item's uuid and the uuid of each delta, the payload
    the tracked item gave for it; [serializeDeltaData] returns it from
    there. *)
Theorem X12_snapshot_flush_read fresh type (t : TrackedItem) pack :
  PackReadsBack →
  (∀ i, (0 ≤ i < ti_getNumDeltas t)%Z → is_Some (ti_getDelta t i)) →
  (∀ i j d d', (0 ≤ i < j)%Z → (j < ti_getNumDeltas t)%Z →
     ti_getDelta t i = Some d → ti_getDelta t j = Some d' →
     Delta_getUuid (Delta_createCopy d') ≠ Delta_getUuid (Delta_createCopy d)) →
  ∃ r pack' writes r',
    RevisionItem_new fresh type (Some t) = Some r ∧
    flushData pack r = Some (pack', writes, r') ∧
    ∀ i, (0 ≤ i < ti_getNumDeltas t)%Z →
      ∃ d, ti_getDelta t i = Some d ∧
        createDeltaDataFor pack' (ti_getUuid t) (Delta_getUuid (Delta_createCopy d)) =
          ti_serializeDeltaData t i ∧
        serializeDeltaData pack' r' i = Some (ti_serializeDeltaData t i).
Proof.
  intros Hpack Hd Hdistinct. unfold RevisionItem_new. cbn zeta.
  match goal with |- context [forLoop _ (copyDelta t) ?r0] =>
    destruct (copy_loop t r0 (Z.to_nat (ti_getNumDeltas t)))
      as (r & Hr & Hu & Hn & Ht & Hl & Hlen & Hdata & Hcopies)
  end.
  { intros i Hi. apply Hd. split; [lia|]. apply Z2Nat.inj_lt; [lia| |rewrite Nat2Z.id; exact Hi].
    destruct (Z.to_nat (ti_getNumDeltas t)) eqn:Hz; lia. }
  simpl in Hu, Hlen, Hdata, Hcopies.
  assert (length (deltasData r) = Z.to_nat (ti_getNumDeltas t)) as Hlen'.
  { by rewrite Hdata, length_fmap, length_seq. }
  destruct (proj2 (flush_loop_returns r (pack, []) (length (deltasData r)))) as [[p ws] Hloop];
    [lia|].
  destruct (flush_loop _ _ _ _ _ Hpack (le_n _) Hloop) as [_ Hread].
  exists r, p, ws, (with_deltasData [] r).
  split; [exact Hr|]. split; [unfold flushData; by rewrite Hloop|].
  intros i Hi. destruct (Hd i Hi) as [d Hdi]. exists d. split; [done|].
  assert (deltas r !! Z.to_nat i = Some (Delta_createCopy d)) as Hcopy.
  { rewrite <- (Hcopies (Z.to_nat i)) by lia. rewrite Z2Nat.id by lia. by rewrite Hdi. }
  assert (createDeltaDataFor p (ti_getUuid t) (Delta_getUuid (Delta_createCopy d)) =
          ti_serializeDeltaData t i) as Hback.
  { rewrite <- Hu. apply (Hread (Z.to_nat i)); [lia|done| |].
    - rewrite Hdata, list_lookup_fmap, lookup_seq_lt by lia.
      simpl. by rewrite Z2Nat.id by lia.
    - intros j delta' Hj Hdj.
      assert (Delta_createCopy <$> ti_getDelta t (Z.of_nat j) = Some delta') as Hsrc.
      { rewrite (Hcopies j) by lia. done. }
      destruct (ti_getDelta t (Z.of_nat j)) as [d'|] eqn:Hd'; [|done].
      simpl in Hsrc. simplify_eq. apply (Hdistinct i (Z.of_nat j) d d'); [lia|lia|done|done]. }
  split; [done|].
  unfold serializeDeltaData, Array_size, OwnedArray_get.
  cbn [deltas deltasData with_deltasData getUuid vcsUuid length].
  destruct (Z.ltb_spec i (Z.of_nat 0)); [lia|].
  destruct (Z.leb_spec 0 i); [|lia].
  rewrite Hcopy. simpl. rewrite Hu. by rewrite Hback.
Qed.

End RevisionItemMore.


(** ** Properties of the legacy serializer *)

Section LegacyFacts.
Import Legacy.

(** A check that holds at each of the first [n] integers holds at any
    integer in that range. *)
Lemma range_cases (n : Z) (P : Z → bool) :
  forallb P (seqZ 0 n) = true → ∀ b, (0 ≤ b < n)%Z → P b = true.
Proof.
  intros Hall b Hb. apply Is_true_true. apply Is_true_true_2, forallb_True in Hall.
  apply (proj1 (Forall_forall _ _) Hall). apply elem_of_seqZ. lia.
Qed.

Lemma range_cases2 (n m : Z) (P : Z → Z → bool) :
  forallb (λ a, forallb (P a) (seqZ 0 m)) (seqZ 0 n) = true →
  ∀ a b, (0 ≤ a < n)%Z → (0 ≤ b < m)%Z → P a b = true.
Proof.
  intros Hall a b Ha Hb.
  apply (range_cases m (P a)); [|done].
  by apply (range_cases n (λ a, forallb (P a) (seqZ 0 m))).
Qed.

(** Induction over a list three elements at a time. *)
Lemma list_ind3 {A} (P : list A → Prop) :
  P [] → (∀ a, P [a]) → (∀ a b, P [a; b]) →
  (∀ a b c l, P l → P (a :: b :: c :: l)) → ∀ l, P l.
Proof.
  intros H0 H1 H2 H3 l.
  assert (P l ∧ (∀ a, P (a :: l)) ∧ (∀ a b, P (a :: b :: l))) as [? _]; [|done].
  induction l as [|x l (IH0 & IH1 & IH2)]; [done|].
  split_and!; [apply IH1|intros a; apply IH2|]. intros a b. by apply H3.
Qed.

Lemma sextets_eq b0 b1 b2 :
  sextets [b0; b1; b2] = [s0 b0; s1 b0 b1; s2 b1 b2; s3 b2].
Proof. reflexivity. Qed.

Lemma octets_eq c0 c1 c2 c3 :
  octets [c0; c1; c2; c3] = [o0 c0 c1; o1 c1 c2; o2 c2 c3].
Proof. reflexivity. Qed.

(** Each of the 64 characters of the alphabet is one the decoder goes on
    at, and is found in the alphabet at its own position. *)
Lemma alphabet_char k :
  (0 ≤ k < 64)%Z → decodable (base64Char k) = true ∧ findChar (base64Char k) = k.
Proof.
  intros Hk.
  pose proof (range_cases 64
    (λ k, decodable (base64Char k) && (findChar (base64Char k) =? k)%Z)) as Hc.
  specialize (Hc ltac:(vm_compute; reflexivity) k Hk). simpl in Hc.
  apply andb_true_iff in Hc as [? ?%Z.eqb_eq]. done.
Qed.

Lemma padChar_stops : decodable padChar = false.
Proof. reflexivity. Qed.

(** The characters of a group are positions in the alphabet. *)
Lemma sextet_range a b :
  isByte a → isByte b →
  (0 ≤ s0 a < 64 ∧ 0 ≤ s1 a b < 64 ∧ 0 ≤ s2 a b < 64 ∧ 0 ≤ s3 a < 64)%Z.
Proof.
  intros Ha Hb.
  pose proof (range_cases2 256 256 (λ a b,
    (0 <=? s0 a) && (s0 a <? 64) && (0 <=? s1 a b) && (s1 a b <? 64) &&
    (0 <=? s2 a b) && (s2 a b <? 64) && (0 <=? s3 a) && (s3 a <? 64))%Z) as Hc.
  specialize (Hc ltac:(vm_compute; reflexivity) a b Ha Hb). simpl in Hc.
  repeat (apply andb_true_iff in Hc as [Hc ?]). lia.
Qed.

(** The decoder's arithmetic undoes the encoder's. *)
Lemma octets_of_sextets a b :
  isByte a → isByte b →
  o0 (s0 a) (s1 a b) = a ∧ o2 (s2 a b) (s3 b) = b ∧
  Z.land (s1 a b) 0xf = Z.shiftr b 4 ∧
  Z.shiftr (Z.land (s2 a b) 0x3c) 2 = Z.land a 0xf ∧
  toUChar (Z.shiftl (Z.shiftr a 4) 4 + Z.land a 0xf) = a.
Proof.
  intros Ha Hb.
  pose proof (range_cases2 256 256 (λ a b,
    (o0 (s0 a) (s1 a b) =? a) && (o2 (s2 a b) (s3 b) =? b) &&
    (Z.land (s1 a b) 0xf =? Z.shiftr b 4) &&
    (Z.shiftr (Z.land (s2 a b) 0x3c) 2 =? Z.land a 0xf) &&
    (toUChar (Z.shiftl (Z.shiftr a 4) 4 + Z.land a 0xf) =? a))%Z) as Hc.
  specialize (Hc ltac:(vm_compute; reflexivity) a b Ha Hb). simpl in Hc.
  repeat (apply andb_true_iff in Hc as [Hc ?]). by rewrite <- !Z.eqb_eq.
Qed.

Lemma o1_of_sextets a b c :
  isByte a → isByte b → isByte c → o1 (s1 a b) (s2 b c) = b.
Proof.
  intros Ha Hb Hc. unfold o1.
  destruct (octets_of_sextets a b Ha Hb) as (_ & _ & -> & _ & _).
  destruct (octets_of_sextets b c Hb Hc) as (_ & _ & _ & -> & ->). done.
Qed.

(** The loop of [encodeBase64] together with what follows it, three bytes
    at a time. *)
Lemma encodeLoop_chunks bytes :
  ∀ x y z ret,
    encodeFinish (encodeLoop bytes 0 [x; y; z] ret) = ret ++ encodeChunks bytes.
Proof.
  induction bytes as [|a|a b|a b c l IH] using list_ind3; intros x y z ret.
  - simpl. by rewrite app_nil_r.
  - reflexivity.
  - reflexivity.
  - cbn [encodeLoop encodeChunks]. rewrite decide_False by done.
    rewrite decide_False by done. rewrite decide_True by done.
    cbn [list_insert insert]. rewrite IH. by rewrite <- app_assoc.
Qed.

Lemma encodeBase64_chunks bytes : encodeBase64 bytes = encodeChunks bytes.
Proof. unfold encodeBase64. by rewrite encodeLoop_chunks. Qed.

(** One full group of the decoder's loop. *)
Lemma decodeLoop_group c0 c1 c2 c3 rest w x y z ret :
  decodable c0 = true → decodable c1 = true →
  decodable c2 = true → decodable c3 = true →
  decodeLoop (c0 :: c1 :: c2 :: c3 :: rest) 0 [w; x; y; z] ret =
  decodeLoop rest 0 (findChar <$> [c0; c1; c2; c3])
    (ret ++ octets (findChar <$> [c0; c1; c2; c3])).
Proof.
  unfold decodable. intros H0 H1 H2 H3.
  cbn [decodeLoop]. rewrite H0, H1, H2, H3.
  rewrite !decide_False by done. rewrite decide_True by done. reflexivity.
Qed.

(** Decoding the text of [encodeChunks], from any state between two
    groups. *)
Lemma decode_chunks bytes :
  Forall isByte bytes →
  ∀ w x y z ret,
    decodeFinish (decodeLoop (encodeChunks bytes) 0 [w; x; y; z] ret) = ret ++ bytes.
Proof.
  assert (isByte 0) as Hzero by (unfold isByte; lia).
  induction bytes as [|a|a b|a b c l IH] using list_ind3; intros Hbytes w x y z ret.
  - simpl. by rewrite app_nil_r.
  - apply Forall_cons in Hbytes as [Ha _].
    destruct (sextet_range a 0 Ha Hzero) as (Hs0 & Hs1 & _ & _).
    destruct (alphabet_char _ Hs0) as [Hd0 Hf0], (alphabet_char _ Hs1) as [Hd1 Hf1].
    destruct (octets_of_sextets a 0 Ha Hzero) as (Ho0 & _).
    cbn [encodeChunks]. rewrite sextets_eq. cbn [take fmap list_fmap app].
    unfold decodable in Hd0, Hd1. cbn [decodeLoop]. rewrite Hd0, Hd1.
    rewrite !decide_False by done. change (bool_decide (padChar ≠ padChar)) with false.
    cbn [andb decodeFinish list_insert insert]. rewrite decide_True by done.
    cbn [take replicate app Nat.sub fmap list_fmap]. rewrite octets_eq, Hf0, Hf1, Ho0.
    reflexivity.
  - apply Forall_cons in Hbytes as [Ha [Hb _]%Forall_cons].
    destruct (sextet_range a b Ha Hb) as (Hs0 & Hs1 & _ & _).
    destruct (sextet_range b 0 Hb Hzero) as (_ & _ & Hs2 & _).
    destruct (alphabet_char _ Hs0) as [Hd0 Hf0], (alphabet_char _ Hs1) as [Hd1 Hf1],
      (alphabet_char _ Hs2) as [Hd2 Hf2].
    destruct (octets_of_sextets a b Ha Hb) as (Ho0 & _).
    pose proof (o1_of_sextets a b 0 Ha Hb Hzero) as Ho1.
    cbn [encodeChunks]. rewrite sextets_eq. cbn [take fmap list_fmap app].
    unfold decodable in Hd0, Hd1, Hd2. cbn [decodeLoop]. rewrite Hd0, Hd1, Hd2.
    rewrite !decide_False by done. change (bool_decide (padChar ≠ padChar)) with false.
    cbn [andb decodeFinish list_insert insert]. rewrite decide_True by done.
    cbn [take replicate app Nat.sub fmap list_fmap]. rewrite octets_eq, Hf0, Hf1, Hf2, Ho0, Ho1.
    reflexivity.
  - apply Forall_cons in Hbytes as [Ha [Hb [Hc Hl]%Forall_cons]%Forall_cons].
    destruct (sextet_range a b Ha Hb) as (Hs0 & Hs1 & _ & _).
    destruct (sextet_range b c Hb Hc) as (_ & _ & Hs2 & _).
    destruct (sextet_range c 0 Hc Hzero) as (_ & _ & _ & Hs3).
    destruct (alphabet_char _ Hs0) as [Hd0 Hf0], (alphabet_char _ Hs1) as [Hd1 Hf1],
      (alphabet_char _ Hs2) as [Hd2 Hf2], (alphabet_char _ Hs3) as [Hd3 Hf3].
    destruct (octets_of_sextets a b Ha Hb) as (Ho0 & _).
    destruct (octets_of_sextets b c Hb Hc) as (_ & Ho2 & _).
    pose proof (o1_of_sextets a b c Ha Hb Hc) as Ho1.
    cbn [encodeChunks]. rewrite sextets_eq. cbn [fmap list_fmap app].
    rewrite decodeLoop_group by done. cbn [fmap list_fmap].
    rewrite octets_eq, Hf0, Hf1, Hf2, Hf3, Ho0, Ho1, Ho2.
    rewrite IH by done. by rewrite <- app_assoc.
Qed.

(** X14: decoding the Base64 text of a sequence of bytes gives the bytes
    back. *)
Theorem X14_base64_round_trip bytes :
  Forall isByte bytes → decodeBase64 (encodeBase64 bytes) = bytes.
Proof.
  intros Hbytes. unfold decodeBase64.
  by rewrite encodeBase64_chunks, decode_chunks.
Qed.

Lemma base64Char_in_alphabet k : (0 ≤ k < 64)%Z → base64Char k ∈ kBase64Chars.
Proof.
  intros Hk. unfold base64Char. apply list_elem_of_lookup_total_2.
  change (length kBase64Chars) with 64. lia.
Qed.

Ltac in_alphabet :=
  repeat first
    [ assumption
    | apply Forall_nil_2
    | apply Forall_cons_2
    | left; apply base64Char_in_alphabet; assumption
    | right; reflexivity ].

(** Length and alphabet of the text of [encodeChunks]. *)
Lemma encodeChunks_shape bytes :
  Forall isByte bytes →
  length (encodeChunks bytes) = 4 * ((length bytes + 2) / 3) ∧
  Forall (λ c, c ∈ kBase64Chars ∨ c = padChar) (encodeChunks bytes).
Proof.
  assert (isByte 0) as Hzero by (unfold isByte; lia).
  induction bytes as [|a|a b|a b c l IH] using list_ind3; intros Hbytes.
  - split; [done|constructor].
  - apply Forall_cons in Hbytes as [Ha _].
    destruct (sextet_range a 0 Ha Hzero) as (Hs0 & Hs1 & _ & _).
    split; [done|]. cbn [encodeChunks]. rewrite sextets_eq.
    in_alphabet.
  - apply Forall_cons in Hbytes as [Ha [Hb _]%Forall_cons].
    destruct (sextet_range a b Ha Hb) as (Hs0 & Hs1 & _ & _).
    destruct (sextet_range b 0 Hb Hzero) as (_ & _ & Hs2 & _).
    split; [done|]. cbn [encodeChunks]. rewrite sextets_eq.
    in_alphabet.
  - apply Forall_cons in Hbytes as [Ha [Hb [Hc Hl]%Forall_cons]%Forall_cons].
    destruct (sextet_range a b Ha Hb) as (Hs0 & Hs1 & _ & _).
    destruct (sextet_range b c Hb Hc) as (_ & _ & Hs2 & _).
    destruct (sextet_range c 0 Hc Hzero) as (_ & _ & _ & Hs3).
    destruct (IH Hl) as [IHlen IHall].
    cbn [encodeChunks]. rewrite sextets_eq. cbn [fmap list_fmap app length].
    split.
    + rewrite IHlen. replace (S (S (S (length l))) + 2) with (1 * 3 + (length l + 2)) by lia.
      rewrite Nat.div_add_l by lia. lia.
    + in_alphabet.
Qed.

(** X15: the Base64 text of [n] bytes has four characters for every three
    bytes or part of three, and each of them is a character of the
    alphabet or '='. *)
Theorem X15_base64_text_shape bytes :
  Forall isByte bytes →
  length (encodeBase64 bytes) = 4 * ((length bytes + 2) / 3) ∧
  Forall (λ c, c ∈ kBase64Chars ∨ c = padChar) (encodeBase64 bytes).
Proof. rewrite encodeBase64_chunks. apply encodeChunks_shape. Qed.

Lemma decodeLoop_stop s c t :
  decodable c = false →
  ∀ i a4 ret, decodeLoop (s ++ c :: t) i a4 ret = decodeLoop s i a4 ret.
Proof.
  unfold decodable. intros Hc.
  induction s as [|x s IH]; intros i a4 ret; cbn [app decodeLoop].
  - by rewrite Hc.
  - destruct (bool_decide (x ≠ padChar) && isBase64 x); [|done].
    destruct (decide (S i = 4)); apply IH.
Qed.

(** X16: the decoder reads up to the first '=' or the first character that
    is not of the alphabet, and ignores that character and the rest of the
    text. *)
Theorem X16_decoder_ignores_the_rest s c t :
  decodable c = false → decodeBase64 (s ++ c :: t) = decodeBase64 s.
Proof. intros Hc. unfold decodeBase64. by rewrite decodeLoop_stop. Qed.

Lemma kXorKey_bytes i : isByte (kXorKey !!! (i mod length kXorKey)).
Proof.
  assert (Forall isByte kXorKey) as Hkey.
  { apply Forall_forall. intros k Hk.
    assert (Is_true (forallb (λ k, (0 <=? k) && (k <? 256))%Z kXorKey)) as Hall
      by (vm_compute; exact I).
    apply forallb_True in Hall. apply (proj1 (Forall_forall _ _) Hall) in Hk.
    apply Is_true_true, andb_true_iff in Hk as [?%Z.leb_le ?%Z.ltb_lt]. done. }
  apply (proj1 (Forall_forall _ _) Hkey), list_elem_of_lookup_total_2.
  apply Nat.mod_upper_bound. by change (length kXorKey) with 128.
Qed.

Lemma lxor_bytes a b : isByte a → isByte b → isByte (Z.lxor a b).
Proof.
  intros Ha Hb.
  pose proof (range_cases2 256 256
    (λ a b, (0 <=? Z.lxor a b) && (Z.lxor a b <? 256))%Z) as Hc.
  specialize (Hc ltac:(vm_compute; reflexivity) a b Ha Hb). simpl in Hc.
  apply andb_true_iff in Hc as [?%Z.leb_le ?%Z.ltb_lt]. done.
Qed.

Lemma doXor_bytes m : Forall isByte m → Forall isByte (doXor m).
Proof.
  intros Hm. apply Forall_lookup. intros i b. unfold doXor.
  rewrite list_lookup_imap. destruct (m !! i) as [b0|] eqn:Hb0; [|done].
  intros [= <-]. apply lxor_bytes; [|apply kXorKey_bytes].
  by apply (proj1 (Forall_lookup _ _) Hm i).
Qed.

Lemma doXor_involutive m : doXor (doXor m) = m.
Proof.
  unfold doXor. apply list_eq. intros i. rewrite !list_lookup_imap.
  destruct (m !! i) as [b|]; [|done]. simpl.
  by rewrite Z.lxor_assoc, Z.lxor_nilpotent, Z.lxor_0_r.
Qed.

(** X17: [doXor] is its own inverse, keeps the number of bytes, and gives
    bytes for bytes. *)
Theorem X17_doXor_twice m :
  doXor (doXor m) = m ∧ length (doXor m) = length m ∧
  (Forall isByte m → Forall isByte (doXor m)).
Proof.
  split; [apply doXor_involutive|]. split; [apply length_imap|apply doXor_bytes].
Qed.

(** X18: when decompressing undoes compressing, and a string made of
    Base64 text gives that text back as its bytes, [deobfuscateString]
    undoes [obfuscateString]. *)
Theorem X18_deobfuscate_obfuscate `{TextApi} (buffer : JString) :
  (∀ s, Forall isByte (compress s)) →
  (∀ s, decompress (compress s) = s) →
  (∀ text, Forall (λ c, c ∈ kBase64Chars ∨ c = padChar) text →
           toStdString (createStringFromData text) = text) →
  deobfuscateString (obfuscateString buffer) = buffer.
Proof.
  intros Hbytes Hgzip Htext. unfold deobfuscateString, obfuscateString. cbn zeta.
  assert (Forall isByte (doXor (compress buffer))) as Hx by (apply doXor_bytes, Hbytes).
  rewrite Htext by (rewrite encodeBase64_chunks; by apply encodeChunks_shape).
  unfold decodeBase64. rewrite encodeBase64_chunks, decode_chunks by done.
  cbn [app]. by rewrite doXor_involutive, Hgzip.
Qed.

(** X26: [toLowerCamelCase] touches the first character only: the length
    and everything after the first character stay, and a string of one
    character or none is returned as it is, upper case or not.  When
    lowering a character twice is the same as lowering it once, applying
    the function twice is the same as applying it once. *)
Theorem X26_toLowerCamelCase `{CharApi} (string : list JChar) :
  length (toLowerCamelCase string) = length string ∧
  drop 1 (toLowerCamelCase string) = drop 1 string ∧
  (length string ≤ 1 → toLowerCamelCase string = string) ∧
  ((∀ c, toLowerCase (toLowerCase c) = toLowerCase c) →
   toLowerCamelCase (toLowerCamelCase string) = toLowerCamelCase string).
Proof.
  unfold toLowerCamelCase. destruct string as [|c [|c' rest]].
  - by split_and!.
  - by split_and!.
  - destruct (Z.ltb_spec 1 (Z.of_nat (length (c :: c' :: rest))));
      [|simpl in *; lia].
    cbn [take drop fmap list_fmap app length].
    destruct (Z.ltb_spec 1 (Z.of_nat (S (S (length rest))))); [|lia].
    cbn [take drop fmap list_fmap app length].
    split_and!; [done|done|lia|]. intros Hlower. by rewrite Hlower.
Qed.

End LegacyFacts.

(** ** Properties of the navigation history *)

Section NavigationFacts.
Import Navigation.

Lemma refAt_in_range l (i : Z) :
  (0 ≤ i < size l)%Z → ∃ w, l !! Z.to_nat i = Some w ∧ refAt l i = w.
Proof.
  unfold size, refAt. intros Hi.
  destruct (lookup_lt_is_Some_2 l (Z.to_nat i)) as [w Hw]; [lia|].
  exists w. split; [done|]. destruct (Z.leb_spec 0 i); [|lia]. by rewrite Hw.
Qed.

Lemma refAt_negative l (i : Z) : (i < 0)%Z → refAt l i = noRef.
Proof. unfold refAt. intros Hi. by destruct (Z.leb_spec 0 i); [lia|]. Qed.

Lemma refAt_not_noRef l (i : Z) :
  Forall (λ w, w ≠ noRef) l → (0 ≤ i < size l)%Z → refAt l i ≠ noRef.
Proof.
  intros Hl Hi. destruct (refAt_in_range l i Hi) as (w & Hw & ->).
  by apply (proj1 (Forall_lookup _ _) Hl (Z.to_nat i)).
Qed.

(** Removing one entry inside the array. *)
Lemma removeRange_one l (i : Z) :
  (0 ≤ i < size l)%Z →
  removeRange l i 1 = take (Z.to_nat i) l ++ drop (S (Z.to_nat i)) l ∧
  size (removeRange l i 1) = (size l - 1)%Z.
Proof.
  unfold size. intros Hi.
  assert (removeRange l i 1 = take (Z.to_nat i) l ++ drop (S (Z.to_nat i)) l) as ->.
  { unfold removeRange, jlimit, size.
    rewrite (proj2 (Z.ltb_ge (i + 1) 0)) by lia.
    rewrite (proj2 (Z.ltb_ge (Z.of_nat (length l)) (i + 1))) by lia.
    rewrite (proj2 (Z.ltb_ge i 0)) by lia.
    rewrite (proj2 (Z.ltb_ge (Z.of_nat (length l)) i)) by lia.
    rewrite (proj2 (Z.ltb_lt 0 (i + 1 - i))) by lia.
    by replace (Z.to_nat (i + 1)) with (S (Z.to_nat i)) by lia. }
  split; [done|]. rewrite length_app, length_take, length_drop. lia.
Qed.

Lemma removeRange_keeps_entries l (i n : Z) :
  Forall (λ w, w ≠ noRef) l → Forall (λ w, w ≠ noRef) (removeRange l i n).
Proof.
  intros Hl. unfold removeRange. destruct (_ <? _)%Z; [|done].
  apply Forall_app. split; [by apply Forall_take|by apply Forall_drop].
Qed.

(** What the loop of [goBack] leaves: a current entry that is not a deleted
    item, and an index that has not grown. *)
Lemma goBackLoop_result turns :
  ∀ l index l' index',
    goBackLoop turns l index = Some (l', index') →
    wasObjectDeleted (refAt l' index') = false ∧
    (index' ≤ index)%Z ∧ ((0 < size l)%Z → (index' < index)%Z).
Proof.
  induction turns as [|turns IH]; intros l index l' index' Hloop; [done|].
  cbn [goBackLoop] in Hloop.
  destruct (Z.ltb_spec 0 (size l)) as [Hsize|Hsize].
  - destruct (wasObjectDeleted (refAt l (index - 1))) eqn:Hprev; cbn [orb negb andb] in Hloop.
    + apply IH in Hloop as (? & ? & ?). split_and!; [done|lia|lia].
    + destruct (negb (wasObjectDeleted (refAt l index)) &&
                sameItem (refAt l index) (refAt l (index - 1))).
      * apply IH in Hloop as (? & ? & ?). split_and!; [done|lia|lia].
      * simplify_eq. split_and!; [done|lia|lia].
  - simplify_eq. split_and!; [|lia|lia].
    assert (l' = []) as -> by (destruct l'; [done|unfold size in Hsize; simpl in Hsize; lia]).
    unfold refAt. by destruct (0 <=? index')%Z; rewrite ?lookup_nil.
Qed.

(** X19: [goBack] answers null and changes nothing when the index is not
    above zero; otherwise it sends a change message, lowers the index,
    returns the entry it stops at, and that entry never refers to a deleted
    item. *)
Theorem X19_goBack_result turns h w h' sent :
  goBack turns h = Some (w, h', sent) →
  (canGoBackward h = false → w = noRef ∧ h' = h ∧ sent = false) ∧
  (canGoBackward h = true →
     sent = true ∧ w = getCurrentItem h' ∧ wasObjectDeleted w = false ∧
     historyLock h' = historyLock h ∧
     (currentPageIndex h' ≤ currentPageIndex h)%Z).
Proof.
  unfold goBack. intros Hgo. destruct (canGoBackward h) eqn:Hcan; cbn [negb] in Hgo.
  - split; [done|]. intros _.
    destruct (goBackLoop _ _ _) as [[l' index']|] eqn:Hloop; [|done].
    simpl in Hgo. simplify_eq.
    apply goBackLoop_result in Hloop as (? & ? & ?). by split_and!.
  - simplify_eq. by split.
Qed.

(** The loop of [goBack] ends within one turn more than the index, on a
    history without null entries. *)
Lemma goBackLoop_returns turns :
  ∀ l index,
    Forall (λ w, w ≠ noRef) l →
    (0 ≤ index ≤ size l - 1)%Z → Z.to_nat index < turns →
    ∃ l' index', goBackLoop turns l index = Some (l', index') ∧
      Forall (λ w, w ≠ noRef) l' ∧ (-1 ≤ index' ≤ Z.max 0 (size l' - 1))%Z.
Proof.
  induction turns as [|turns IH]; intros l index Hl Hindex Hturns; [lia|].
  cbn [goBackLoop]. destruct (Z.ltb_spec 0 (size l)) as [Hsize|Hsize]; [|lia].
  destruct (wasObjectDeleted (refAt l (index - 1)) || _) eqn:Hgo.
  - destruct (decide (index = 0%Z)) as [->|Hne].
    + exfalso. rewrite (refAt_negative l (0 - 1)) in Hgo by lia.
      pose proof (refAt_not_noRef l 0%Z Hl ltac:(lia)) as Hcur.
      destruct (refAt l 0%Z); [done|done|done].
    + destruct (removeRange_one l (index - 1)) as [_ Hsize']; [lia|].
      apply IH; [by apply removeRange_keeps_entries|lia|lia].
  - exists l, (index - 1)%Z. split_and!; [done|done|lia|lia].
Qed.

(** X20: on a well-formed history [goBack] returns within one turn more
    than the index, and the history it leaves is well-formed. *)
Theorem X20_goBack_returns turns h :
  wellFormed h → Z.to_nat (currentPageIndex h) < turns →
  ∃ w h' sent, goBack turns h = Some (w, h', sent) ∧ wellFormed h'.
Proof.
  intros [Hl Hindex] Hturns. unfold goBack, canGoBackward.
  destruct (Z.ltb_spec 0 (currentPageIndex h)) as [Hpos|Hpos]; cbn [negb].
  - destruct (goBackLoop_returns turns (list_ h) (currentPageIndex h))
      as (l' & index' & -> & Hl' & Hindex'); [done|lia|done|].
    simpl. eexists _, _, _. split; [reflexivity|]. by split.
  - eexists _, _, _. split; [reflexivity|]. by split.
Qed.

(** The loop of [goForward] ends within one turn more than the number of
    entries ahead. *)
Lemma goForwardLoop_returns turns :
  ∀ l index,
    Forall (λ w, w ≠ noRef) l →
    (-1 ≤ index ≤ Z.max 0 (size l - 1))%Z →
    Z.to_nat (size l - 1 - index) < turns →
    ∃ l' index', goForwardLoop turns l index = Some (l', index') ∧
      Forall (λ w, w ≠ noRef) l' ∧ (-1 ≤ index' ≤ Z.max 0 (size l' - 1))%Z.
Proof.
  induction turns as [|turns IH]; intros l index Hl Hindex Hturns; [lia|].
  cbn [goForwardLoop]. destruct (Z.ltb_spec index (size l - 1)) as [Hahead|Hahead].
  - destruct (wasObjectDeleted (refAt l (index + 1)) || _) eqn:Hgo.
    + destruct (removeRange_one l (index + 1)) as [_ Hsize']; [lia|].
      replace (index + 1 - 1)%Z with index by lia.
      apply IH; [by apply removeRange_keeps_entries|lia|lia].
    + exists l, (index + 1)%Z. split_and!; [done|done|lia|lia].
  - exists l, index. split_and!; [done|done|lia|lia].
Qed.

(** X21: on a well-formed history [goForward] returns within one turn more
    than the number of entries ahead of the index, and the history it
    leaves is well-formed. *)
Theorem X21_goForward_returns turns h :
  wellFormed h →
  Z.to_nat (size (list_ h) - 1 - currentPageIndex h) < turns →
  ∃ w h' sent, goForward turns h = Some (w, h', sent) ∧ wellFormed h'.
Proof.
  intros [Hl Hindex] Hturns. unfold goForward.
  destruct (canGoForward h); cbn [negb].
  - destruct (goForwardLoop_returns turns (list_ h) (currentPageIndex h))
      as (l' & index' & -> & Hl' & Hindex'); [done|lia|done|].
    simpl. eexists _, _, _. split; [reflexivity|]. by split.
  - eexists _, _, _. split; [reflexivity|]. by split.
Qed.

(** The cleaning loop ends within one turn more than the number of entries
    it has to look at, and brings in no null entry. *)
Lemma cleanupLoop_returns turns :
  ∀ l index i,
    (0 ≤ i)%Z → Z.to_nat (size l - 1 - i) < turns →
    ∃ l' index', cleanupLoop turns l index i = Some (l', index') ∧
      (Forall (λ w, w ≠ noRef) l → Forall (λ w, w ≠ noRef) l').
Proof.
  induction turns as [|turns IH]; intros l index i Hi Hturns; [lia|].
  cbn [cleanupLoop]. destruct (Z.ltb_spec i (size l - 1)) as [Hin|Hin].
  - destruct (wasObjectDeleted (refAt l i)).
    + destruct (removeRange_one l i) as [_ Hsize']; [lia|].
      edestruct (IH (removeRange l i 1)) as (l' & index' & -> & Hl'); [done|lia|].
      eexists _, _. split; [reflexivity|]. intros Hl.
      by apply Hl', removeRange_keeps_entries.
    + apply IH; lia.
  - by exists l, index.
Qed.

(** X22: [addItemIfNeeded] changes nothing and returns false when the
    history is locked, the item is null, or the item is the current one.
    Otherwise, given a turn for each entry and one more, it returns true
    and sends a change message; the added item is then the last entry and
    the current one, nothing is ahead of it, and the history is
    well-formed if its entries were not null. *)
Theorem X22_addItemIfNeeded turns h item :
  (historyLock h = true ∨ item = None ∨ get (getCurrentItem h) = item →
     addItemIfNeeded turns h item = Some (false, h, false)) ∧
  (∀ p, historyLock h = false → item = Some p →
     get (getCurrentItem h) ≠ Some p → length (list_ h) < turns →
     ∃ h', addItemIfNeeded turns h item = Some (true, h', true) ∧
       last (list_ h') = Some (liveRef p) ∧
       getCurrentItem h' = liveRef p ∧
       currentPageIndex h' = (size (list_ h') - 1)%Z ∧
       canGoForward h' = false ∧
       historyLock h' = false ∧
       (Forall (λ w, w ≠ noRef) (list_ h) → wellFormed h')).
Proof.
  split.
  - unfold addItemIfNeeded. intros Hcase.
    destruct (historyLock h); [done|]. destruct item as [p|]; [|done].
    destruct Hcase as [?|[?|Hcur]]; [done|done|].
    by rewrite bool_decide_eq_false_2 by (intros Hne; by apply Hne).
  - intros p Hlock -> Hcur Hturns. unfold addItemIfNeeded. rewrite Hlock.
    rewrite bool_decide_eq_true_2 by done.
    destruct (cleanupLoop_returns turns (list_ h) (currentPageIndex h) 0)
      as (l' & index' & -> & Hl'); [lia|unfold size; lia|].
    cbn [mbind option_bind fst snd]. eexists. split; [reflexivity|].
    cbn [list_ currentPageIndex historyLock].
    set (kept := removeRange l' (index' + 1) (size l')).
    assert (size (kept ++ [liveRef p]) - 1 = Z.of_nat (length kept))%Z as Hsize.
    { unfold size. rewrite length_app. simpl. lia. }
    split_and!.
    + by rewrite last_snoc.
    + unfold getCurrentItem. cbn [list_ currentPageIndex]. rewrite Hsize.
      unfold refAt. destruct (Z.leb_spec 0 (Z.of_nat (length kept))); [|lia].
      by rewrite Nat2Z.id, lookup_app_r, Nat.sub_diag by lia.
    + done.
    + unfold canGoForward. cbn [list_ currentPageIndex]. apply Z.ltb_ge. lia.
    + done.
    + intros Hl. split; cbn [list_ currentPageIndex].
      * apply Forall_app. split; [|by repeat constructor].
        by apply removeRange_keeps_entries, Hl'.
      * lia.
Qed.

(** The loop of [goBack] over a run of deleted entries that reaches down to
    the first page. *)
Lemma goBackLoop_deleted_prefix n :
  ∀ turns cur rest,
    cur ≠ noRef → n < turns →
    goBackLoop turns (replicate n deadRef ++ cur :: rest) (Z.of_nat n) =
    Some (cur :: rest, (-1)%Z).
Proof.
  induction n as [|n IH]; intros turns cur rest Hcur Hturns;
    (destruct turns as [|turns]; [lia|]).
  - cbn [goBackLoop replicate app]. destruct cur; done.
  - cbn [goBackLoop].
    assert (0 < size (replicate (S n) deadRef ++ cur :: rest))%Z as Hsize.
    { unfold size. rewrite length_app, length_replicate. simpl. lia. }
    destruct (Z.ltb_spec 0 (size (replicate (S n) deadRef ++ cur :: rest))); [|lia].
    replace (Z.of_nat (S n) - 1)%Z with (Z.of_nat n) by lia.
    assert (refAt (replicate (S n) deadRef ++ cur :: rest) (Z.of_nat n) = deadRef) as ->.
    { unfold refAt. destruct (Z.leb_spec 0 (Z.of_nat n)); [|lia].
      rewrite Nat2Z.id, lookup_app_l by (rewrite length_replicate; lia).
      by rewrite lookup_replicate_2 by lia. }
    cbn [wasObjectDeleted orb].
    destruct (removeRange_one (replicate (S n) deadRef ++ cur :: rest) (Z.of_nat n))
      as [-> _].
    { unfold size. rewrite length_app, length_replicate. simpl. lia. }
    rewrite Nat2Z.id.
    rewrite take_app_le, take_replicate, Nat.min_l by (rewrite ?length_replicate; lia).
    rewrite drop_app_ge by (rewrite length_replicate; lia).
    rewrite length_replicate, Nat.sub_diag. cbn [drop]. apply IH; [done|lia].
Qed.

(** X23: when every page before the current one refers to a deleted item,
    [goBack] drops them all, leaves the index at -1, one step before the
    page the user is on, and returns null although it could go backward.
    After that, nothing is current and the way forward is open. *)
Theorem X23_goBack_over_deleted_pages turns n cur rest lk :
  cur ≠ noRef → S n < turns →
  let h := {| list_ := replicate (S n) deadRef ++ cur :: rest;
              currentPageIndex := Z.of_nat (S n); historyLock := lk |} in
  let h' := {| list_ := cur :: rest; currentPageIndex := -1; historyLock := lk |} in
  canGoBackward h = true ∧
  goBack turns h = Some (noRef, h', true) ∧
  getCurrentItem h' = noRef ∧ canGoBackward h' = false ∧ canGoForward h' = true.
Proof.
  intros Hcur Hturns h h'. split_and!; [done| |done|done|].
  - unfold goBack. change (negb (canGoBackward h)) with false. cbn iota.
    cbn [list_ currentPageIndex h]. rewrite goBackLoop_deleted_prefix by done. done.
  - unfold canGoForward, size. cbn [list_ currentPageIndex h' length].
    apply Z.ltb_lt. lia.
Qed.

(** X24: between two neighbouring pages that refer to different live
    items, [goBack] moves one step down and [goForward] one step up, each
    returns the page it arrives at, the list stays as it is, and the two
    undo each other. *)
Theorem X24_one_step_back_and_forth turns l k p q lk :
  l !! k = Some (liveRef p) → l !! S k = Some (liveRef q) → p ≠ q → 0 < turns →
  let upper := {| list_ := l; currentPageIndex := Z.of_nat (S k); historyLock := lk |} in
  let lower := {| list_ := l; currentPageIndex := Z.of_nat k; historyLock := lk |} in
  goBack turns upper = Some (liveRef p, lower, true) ∧
  goForward turns lower = Some (liveRef q, upper, true).
Proof.
  intros Hp Hq Hpq Hturns upper lower.
  assert (refAt l (Z.of_nat k) = liveRef p) as Hrp.
  { unfold refAt. destruct (Z.leb_spec 0 (Z.of_nat k)); [|lia]. by rewrite Nat2Z.id, Hp. }
  assert (refAt l (Z.of_nat (S k)) = liveRef q) as Hrq.
  { unfold refAt. destruct (Z.leb_spec 0 (Z.of_nat (S k))); [|lia].
    by rewrite Nat2Z.id, Hq. }
  assert (S k < length l) as Hlen by (by apply lookup_lt_Some in Hq).
  destruct turns as [|turns]; [lia|]. split.
  - unfold goBack, canGoBackward. cbn [list_ currentPageIndex upper historyLock].
    destruct (Z.ltb_spec 0 (Z.of_nat (S k))); [|lia]. cbn [negb goBackLoop].
    destruct (Z.ltb_spec 0 (size l)); [|unfold size in *; lia].
    replace (Z.of_nat (S k) - 1)%Z with (Z.of_nat k) by lia.
    rewrite Hrp, Hrq. cbn [wasObjectDeleted negb andb orb]. unfold sameItem. cbn [get].
    rewrite bool_decide_eq_false_2 by congruence.
    cbn [mbind option_bind fst snd]. by rewrite Hrp.
  - unfold goForward, canGoForward. cbn [list_ currentPageIndex lower historyLock].
    destruct (Z.ltb_spec (Z.of_nat k) (size l - 1)); [|unfold size in *; lia].
    cbn [negb goForwardLoop].
    destruct (Z.ltb_spec (Z.of_nat k) (size l - 1)); [|unfold size in *; lia].
    replace (Z.of_nat k + 1)%Z with (Z.of_nat (S k)) by lia.
    rewrite Hrp, Hrq. cbn [wasObjectDeleted negb andb orb]. unfold sameItem. cbn [get].
    rewrite bool_decide_eq_false_2 by congruence.
    cbn [mbind option_bind fst snd]. by rewrite Hrq.
Qed.

Lemma removeRange_sublist l (i n : Z) : removeRange l i n `sublist_of` l.
Proof.
  unfold removeRange. destruct (Z.ltb_spec 0 (jlimit 0 (size l) (i + n) -
                                              jlimit 0 (size l) i)); [|done].
  set (s := Z.to_nat (jlimit 0 (size l) i)).
  set (e := Z.to_nat (jlimit 0 (size l) (i + n))).
  rewrite <- (take_drop s l) at 3. apply sublist_app; [done|].
  replace e with (s + (e - s)) by lia. rewrite <- drop_drop. apply sublist_drop.
Qed.

Lemma refAt_entry l (i : Z) : refAt l i = noRef ∨ refAt l i ∈ l.
Proof.
  unfold refAt. destruct (0 <=? i)%Z; [|by left].
  destruct (l !! Z.to_nat i) as [w|] eqn:Hw; [|by left].
  right. by eapply list_elem_of_lookup_2.
Qed.

Lemma goBackLoop_sublist turns :
  ∀ l index l' index',
    goBackLoop turns l index = Some (l', index') → l' `sublist_of` l.
Proof.
  induction turns as [|turns IH]; intros l index l' index' Hloop; [done|].
  cbn [goBackLoop] in Hloop. destruct (0 <? size l)%Z; [|by simplify_eq].
  destruct (_ || _).
  - apply IH in Hloop. etrans; [done|apply removeRange_sublist].
  - by simplify_eq.
Qed.

Lemma goForwardLoop_sublist turns :
  ∀ l index l' index',
    goForwardLoop turns l index = Some (l', index') → l' `sublist_of` l.
Proof.
  induction turns as [|turns IH]; intros l index l' index' Hloop; [done|].
  cbn [goForwardLoop] in Hloop. destruct (index <? size l - 1)%Z; [|by simplify_eq].
  destruct (_ || _).
  - apply IH in Hloop. etrans; [done|apply removeRange_sublist].
  - by simplify_eq.
Qed.

(** X25: [goBack] and [goForward] only ever drop entries: the list they
    leave is the old list with some entries missing, in the same order, and
    the reference they return is null or an entry of the old list. *)
Theorem X25_navigation_only_drops_entries turns h w h' sent :
  goBack turns h = Some (w, h', sent) ∨ goForward turns h = Some (w, h', sent) →
  list_ h' `sublist_of` list_ h ∧ (w = noRef ∨ w ∈ list_ h).
Proof.
  intros [Hgo|Hgo].
  - unfold goBack in Hgo. destruct (negb (canGoBackward h)).
    { simplify_eq. split; [done|by left]. }
    destruct (goBackLoop _ _ _) as [[l' index']|] eqn:Hloop; [|done].
    simpl in Hgo. simplify_eq. apply goBackLoop_sublist in Hloop.
    split; [done|]. cbn [list_].
    destruct (refAt_entry l' index') as [?|Hin]; [by left|right].
    by eapply elem_of_sublist.
  - unfold goForward in Hgo. destruct (negb (canGoForward h)).
    { simplify_eq. split; [done|by left]. }
    destruct (goForwardLoop _ _ _) as [[l' index']|] eqn:Hloop; [|done].
    simpl in Hgo. simplify_eq. apply goForwardLoop_sublist in Hloop.
    split; [done|]. cbn [list_].
    destruct (refAt_entry l' index') as [?|Hin]; [by left|right].
    by eapply elem_of_sublist.
Qed.

End NavigationFacts.

(** ** The further properties on concrete inputs *)

Section MoreConcrete.
Import Reference Legacy Navigation Samples.

Lemma X1_witness :
  length (deltasData snapshot) ≤ length (deltas snapshot) ∧
  is_Some (flushData emptyPack snapshot).
Proof.
  assert (length (deltasData snapshot) ≤ length (deltas snapshot)) as Hfit
    by (simpl; lia).
  split; [exact Hfit|].
  apply (proj2 (X1_flush_returns_iff_cache_fits emptyPack snapshot) Hfit).
Defined.

Lemma X2_witness :
  flushData emptyPack snapshot = Some (snapshotPack, snapshotWrites, flushedSnapshot) ∧
  snapshotWrites =
    zip_with (λ d v, (getUuid snapshot, Delta_getUuid d, v))
      (deltas snapshot) (deltasData snapshot) ∧
  length snapshotWrites = length (deltasData snapshot) ∧
  snapshotPack =
    foldl (λ p (w : PackWrite), setDeltaDataFor p w.1.1 w.1.2 w.2) emptyPack
      snapshotWrites ∧
  flushedSnapshot = with_deltasData [] snapshot.
Proof.
  split; [reflexivity|].
  apply (X2_flush_writes_each_payload_once emptyPack snapshot snapshotPack
           snapshotWrites flushedSnapshot eq_refl).
Defined.

Lemma other_item_differs : "item-B" ≠ getUuid snapshot
  ∨ Forall (λ d : RefDelta, Delta_getUuid d ≠ "d1")
      (take (length (deltasData snapshot)) (deltas snapshot)).
Proof. by left. Qed.

Lemma X3_witness :
  PackReadsBack ∧
  flushData emptyPack snapshot = Some (snapshotPack, snapshotWrites, flushedSnapshot) ∧
  createDeltaDataFor snapshotPack "item-B" "d1" =
  createDeltaDataFor emptyPack "item-B" "d1".
Proof.
  split; [apply refPack_reads_back|]. split; [reflexivity|].
  apply (X3_flush_leaves_other_keys emptyPack snapshot snapshotPack snapshotWrites
           flushedSnapshot "item-B" "d1" refPack_reads_back eq_refl other_item_differs).
Defined.

Lemma X4_witness :
  (∃ d, d ∈ deltas snapshot ∧ Delta_getUuid d = "d2") ∧
  ∃ i d, deltas snapshot !! i = Some d ∧ Delta_getUuid d = "d2" ∧
    (∀ j d', j < i → deltas snapshot !! j = Some d' → Delta_getUuid d' ≠ "d2") ∧
    ∀ pack, serializeDeltaData pack
              (importDataForDelta snapshot (payload "new") "d2") (Z.of_nat i) =
            Some (payload "new").
Proof.
  split; [apply snapshot_has_d2|].
  apply (X4_import_then_read snapshot (payload "new") "d2" snapshot_has_d2).
Defined.

Lemma second_slot_is_not_first_d1 :
  ¬ (∃ d : RefDelta, deltas clashing !! 1 = Some d ∧ Delta_getUuid d = "d1" ∧
       ∀ k d', k < 1 → deltas clashing !! k = Some d' → Delta_getUuid d' ≠ "d1").
Proof.
  intros (d & _ & _ & Hfirst). apply (Hfirst 0 (mkDelta "d1" "Changed")); [lia|done|done].
Qed.

Lemma X5_witness :
  deltasData clashing !! 1 = Some (newTree "dummy") ∧
  ¬ (∃ d : RefDelta, deltas clashing !! 1 = Some d ∧ Delta_getUuid d = "d1" ∧
       ∀ k d', k < 1 → deltas clashing !! k = Some d' → Delta_getUuid d' ≠ "d1") ∧
  deltasData (importDataForDelta clashing (payload "new") "d1") !! 1 =
  Some (newTree "dummy").
Proof.
  split; [reflexivity|]. split; [apply second_slot_is_not_first_d1|].
  apply (X5_import_keeps_other_payloads clashing (payload "new") "d1" 1
           (newTree "dummy") eq_refl second_slot_is_not_first_d1).
Defined.

Lemma X7_witness :
  length (deltasData flushedSnapshot) ≤ length (deltas flushedSnapshot) ∧
  length (deltasData (importDataForDelta flushedSnapshot (payload "new") "d2")) ≤
    length (deltas (importDataForDelta flushedSnapshot (payload "new") "d2")) ∧
  is_Some (flushData emptyPack (importDataForDelta flushedSnapshot (payload "new") "d2")).
Proof.
  assert (length (deltasData flushedSnapshot) ≤ length (deltas flushedSnapshot)) as Hfit
    by (simpl; lia).
  split; [exact Hfit|].
  apply (X7_import_keeps_cache_within_deltas emptyPack flushedSnapshot
           (payload "new") "d2" Hfit).
Defined.

Lemma X8_witness :
  hasType wrappedTree Keys.revisionItem = false ∧
  deserialize snapshot wrappedTree =
  deserialize snapshot (getChildWithName wrappedTree Keys.revisionItem).
Proof.
  split; [reflexivity|].
  apply (X8_deserialize_looks_one_level_down snapshot wrappedTree eq_refl).
Defined.

Lemma X9_witness :
  length (getChildren (rootOf tree99)) < length (deltasData snapshot) ∧
  flushData emptyPack (deserialize snapshot tree99) = None.
Proof.
  assert (length (getChildren (rootOf tree99)) < length (deltasData snapshot)) as Hlt
    by (vm_compute; lia).
  split; [exact Hlt|].
  apply (X9_flush_after_shorter_reload_fails emptyPack snapshot tree99 Hlt).
Defined.

Lemma X10_witness :
  getDiffLogic snapshot = Some TrackLogic ∧
  ∃ tree, serialize snapshot = Some tree ∧
    hasType tree Keys.revisionItem = true ∧
    getPropertyOrVoid tree Keys.revisionItemType = var_int (getType snapshot) ∧
    getPropertyOrVoid tree Keys.revisionItemName = var_string (getVCSName snapshot) ∧
    getPropertyOrVoid tree Keys.revisionItemDiffLogic =
      var_string (DiffLogic_getType TrackLogic) ∧
    getChildren tree =
      filter (λ c, isValid c = true) (Delta_serialize <$> deltas snapshot).
Proof.
  split; [reflexivity|].
  apply (proj2 (X10_serialize_shape snapshot) TrackLogic eq_refl).
Defined.

Lemma X11_witness :
  flushData emptyPack snapshot = Some (snapshotPack, snapshotWrites, flushedSnapshot) ∧
  serialize flushedSnapshot = serialize snapshot.
Proof.
  split; [reflexivity|].
  apply (proj2 (X11_serialize_ignores_payloads snapshot) emptyPack snapshotPack
           snapshotWrites flushedSnapshot eq_refl).
Defined.

Lemma liveItem_copies_differ (i j : Z) (d d' : RefDelta) :
  (0 ≤ i < j)%Z → (j < ti_getNumDeltas liveItem)%Z →
  ti_getDelta liveItem i = Some d → ti_getDelta liveItem j = Some d' →
  Delta_getUuid (Delta_createCopy d') ≠ Delta_getUuid (Delta_createCopy d).
Proof.
  simpl. intros Hij Hj Hd Hd'.
  assert (i = 0%Z) as -> by lia. assert (j = 1%Z) as -> by lia.
  simpl in Hd, Hd'. by simplify_eq.
Qed.

Lemma X12_witness :
  PackReadsBack ∧
  (∀ i, (0 ≤ i < ti_getNumDeltas liveItem)%Z → is_Some (ti_getDelta liveItem i)) ∧
  ∃ r pack' writes r',
    RevisionItem_new "item-0" Added (Some liveItem) = Some r ∧
    flushData emptyPack r = Some (pack', writes, r') ∧
    ∀ i, (0 ≤ i < ti_getNumDeltas liveItem)%Z →
      ∃ d, ti_getDelta liveItem i = Some d ∧
        createDeltaDataFor pack' (ti_getUuid liveItem)
          (Delta_getUuid (Delta_createCopy d)) = ti_serializeDeltaData liveItem i ∧
        serializeDeltaData pack' r' i = Some (ti_serializeDeltaData liveItem i).
Proof.
  split; [apply refPack_reads_back|]. split; [apply liveItem_has_its_deltas|].
  apply (X12_snapshot_flush_read "item-0" Added liveItem emptyPack
           refPack_reads_back liveItem_has_its_deltas liveItem_copies_differ).
Defined.

Lemma X13_witness :
  ((-1 < 0)%Z ∧ serializeDeltaData emptyPack snapshot (-1) = Some invalidTree) ∧
  ((Array_size (deltasData snapshot) ≤ 5)%Z ∧ (getNumDeltas snapshot ≤ 5)%Z ∧
   serializeDeltaData emptyPack snapshot 5 = None).
Proof.
  assert (-1 < 0)%Z as Hneg by lia.
  assert (Array_size (deltasData snapshot) ≤ 5)%Z as Hc by (vm_compute; congruence).
  assert (getNumDeltas snapshot ≤ 5)%Z as Hd by (vm_compute; congruence).
  split.
  - split; [exact Hneg|].
    apply (proj1 (X13_serializeDeltaData_out_of_range emptyPack snapshot (-1)) Hneg).
  - split; [exact Hc|]. split; [exact Hd|].
    apply (proj2 (X13_serializeDeltaData_out_of_range emptyPack snapshot 5) Hc Hd).
Defined.

Lemma bytesOf_bytes s : Forall isByte (bytesOf s).
Proof.
  unfold bytesOf. apply Forall_fmap, Forall_forall. intros c _. unfold isByte. simpl.
  pose proof (Ascii.nat_ascii_bounded c). lia.
Qed.

Lemma X14_witness :
  Forall isByte (bytesOf "Helio") ∧
  decodeBase64 (encodeBase64 (bytesOf "Helio")) = bytesOf "Helio".
Proof.
  split; [apply bytesOf_bytes|].
  apply (X14_base64_round_trip (bytesOf "Helio") (bytesOf_bytes "Helio")).
Defined.

Lemma X15_witness :
  Forall isByte (bytesOf "Helio") ∧
  length (encodeBase64 (bytesOf "Helio")) = 4 * ((length (bytesOf "Helio") + 2) / 3) ∧
  Forall (λ c, c ∈ kBase64Chars ∨ c = padChar) (encodeBase64 (bytesOf "Helio")).
Proof.
  split; [apply bytesOf_bytes|].
  apply (X15_base64_text_shape (bytesOf "Helio") (bytesOf_bytes "Helio")).
Defined.

Lemma X16_witness :
  decodable 32 = false ∧
  decodeBase64 (bytesOf "SGVsaW8" ++ 32%Z :: bytesOf "SGVsaW8") =
  decodeBase64 (bytesOf "SGVsaW8").
Proof.
  split; [reflexivity|].
  apply (X16_decoder_ignores_the_rest (bytesOf "SGVsaW8") 32 (bytesOf "SGVsaW8") eq_refl).
Defined.

Lemma X17_witness :
  Forall isByte (bytesOf "Helio") ∧ Forall isByte (doXor (bytesOf "Helio")).
Proof.
  split; [apply bytesOf_bytes|].
  apply (proj2 (proj2 (X17_doXor_twice (bytesOf "Helio"))) (bytesOf_bytes "Helio")).
Defined.

Lemma textOf_bytesOf s : textOf (bytesOf s) = s.
Proof.
  unfold textOf, bytesOf. rewrite <- list_fmap_compose.
  rewrite <- (String.string_of_list_ascii_of_string s) at 2. f_equal.
  induction (String.list_ascii_of_string s) as [|c l IH]; [done|].
  rewrite fmap_cons, IH. f_equal. simpl.
  by rewrite Nat2Z.id, Ascii.ascii_nat_embedding.
Qed.

Lemma bytesOf_textOf bytes : Forall isByte bytes → bytesOf (textOf bytes) = bytes.
Proof.
  unfold textOf, bytesOf. intros Hb.
  rewrite String.list_ascii_of_string_of_list_ascii, <- list_fmap_compose.
  induction Hb as [|b l Hb _ IH]; [done|].
  rewrite fmap_cons, IH. f_equal. simpl. unfold isByte in Hb.
  rewrite Ascii.nat_ascii_embedding by lia. lia.
Qed.

Lemma base64_text_is_bytes text :
  Forall (λ c, c ∈ kBase64Chars ∨ c = padChar) text → Forall isByte text.
Proof.
  intros Ht. eapply Forall_impl; [exact Ht|]. clear Ht.
  intros c [Hc| ->]; [|unfold isByte, padChar; lia].
  assert (Is_true (forallb (λ k, (0 <=? k) && (k <? 256))%Z kBase64Chars)) as Hall
    by (vm_compute; exact I).
  apply forallb_True in Hall. apply (proj1 (Forall_forall _ _) Hall) in Hc.
  apply Is_true_true, andb_true_iff in Hc as [?%Z.leb_le ?%Z.ltb_lt]. done.
Qed.

Lemma storedText_reads_back text :
  Forall (λ c, c ∈ kBase64Chars ∨ c = padChar) text →
  toStdString (createStringFromData text) = text.
Proof. intros Ht. by apply bytesOf_textOf, base64_text_is_bytes. Qed.

Lemma X18_witness :
  (∀ s : string, Forall isByte (compress s)) ∧
  (∀ s : string, decompress (compress s) = s) ∧
  (∀ text, Forall (λ c, c ∈ kBase64Chars ∨ c = padChar) text →
           toStdString (createStringFromData text) = text) ∧
  @deobfuscateString storedText (@obfuscateString storedText "Helio") = "Helio".
Proof.
  split; [apply bytesOf_bytes|]. split; [apply textOf_bytesOf|].
  split; [apply storedText_reads_back|].
  apply (@X18_deobfuscate_obfuscate storedText "Helio"
           bytesOf_bytes textOf_bytesOf storedText_reads_back).
Defined.

Lemma X19_witness :
  goBack 3 freshHistory =
    Some (liveRef 1,
          {| list_ := [liveRef 1; liveRef 2; liveRef 3];
             currentPageIndex := 0; historyLock := false |}, true) ∧
  canGoBackward freshHistory = true ∧
  (true = true ∧
   liveRef 1 = getCurrentItem
     {| list_ := [liveRef 1; liveRef 2; liveRef 3];
        currentPageIndex := 0; historyLock := false |} ∧
   wasObjectDeleted (liveRef 1) = false ∧
   false = historyLock freshHistory ∧
   (0 ≤ currentPageIndex freshHistory)%Z).
Proof.
  split; [reflexivity|]. split; [reflexivity|].
  apply (proj2 (X19_goBack_result 3 freshHistory (liveRef 1)
                  {| list_ := [liveRef 1; liveRef 2; liveRef 3];
                     currentPageIndex := 0; historyLock := false |} true eq_refl)
           eq_refl).
Defined.

Lemma staleHistory_wellFormed : wellFormed staleHistory.
Proof. split; [by repeat constructor|]. vm_compute. split; congruence. Qed.

Lemma X20_witness :
  wellFormed staleHistory ∧ Z.to_nat (currentPageIndex staleHistory) < 3 ∧
  ∃ w h' sent, goBack 3 staleHistory = Some (w, h', sent) ∧ wellFormed h'.
Proof.
  assert (Z.to_nat (currentPageIndex staleHistory) < 3) as Hturns by (simpl; lia).
  split; [apply staleHistory_wellFormed|]. split; [exact Hturns|].
  apply (X20_goBack_returns 3 staleHistory staleHistory_wellFormed Hturns).
Defined.

Lemma freshHistory_wellFormed : wellFormed freshHistory.
Proof. split; [by repeat constructor|]. vm_compute. split; congruence. Qed.

Lemma X21_witness :
  wellFormed freshHistory ∧
  Z.to_nat (size (list_ freshHistory) - 1 - currentPageIndex freshHistory) < 2 ∧
  ∃ w h' sent, goForward 2 freshHistory = Some (w, h', sent) ∧ wellFormed h'.
Proof.
  assert (Z.to_nat (size (list_ freshHistory) - 1 - currentPageIndex freshHistory) < 2)
    as Hturns by (vm_compute; lia).
  split; [apply freshHistory_wellFormed|]. split; [exact Hturns|].
  apply (X21_goForward_returns 2 freshHistory freshHistory_wellFormed Hturns).
Defined.

Lemma freshHistory_entries : Forall (λ w, w ≠ noRef) (list_ freshHistory).
Proof. by repeat constructor. Qed.

Lemma X22_witness :
  (get (getCurrentItem freshHistory) = Some 2 ∧
   addItemIfNeeded 4 freshHistory (Some 2) = Some (false, freshHistory, false)) ∧
  (historyLock freshHistory = false ∧ get (getCurrentItem freshHistory) ≠ Some 7 ∧
   length (list_ freshHistory) < 4 ∧
   ∃ h', addItemIfNeeded 4 freshHistory (Some 7) = Some (true, h', true) ∧
     last (list_ h') = Some (liveRef 7) ∧
     getCurrentItem h' = liveRef 7 ∧
     currentPageIndex h' = (size (list_ h') - 1)%Z ∧
     canGoForward h' = false ∧
     historyLock h' = false ∧
     (Forall (λ w, w ≠ noRef) (list_ freshHistory) → wellFormed h')).
Proof.
  assert (get (getCurrentItem freshHistory) ≠ Some 7) as Hcur by (vm_compute; congruence).
  assert (length (list_ freshHistory) < 4) as Hturns by (simpl; lia).
  split.
  - split; [reflexivity|].
    apply (proj1 (X22_addItemIfNeeded 4 freshHistory (Some 2))).
    right. right. reflexivity.
  - split; [reflexivity|]. split; [exact Hcur|]. split; [exact Hturns|].
    apply (proj2 (X22_addItemIfNeeded 4 freshHistory (Some 7)) 7 eq_refl eq_refl
             Hcur Hturns).
Defined.

Lemma liveRef_is_not_null p : liveRef p ≠ noRef.
Proof. done. Qed.

Lemma X23_witness :
  liveRef 3 ≠ noRef ∧ 2 < 3 ∧
  canGoBackward staleHistory = true ∧
  goBack 3 staleHistory =
    Some (noRef,
          {| list_ := [liveRef 3]; currentPageIndex := -1; historyLock := false |},
          true) ∧
  getCurrentItem
    {| list_ := [liveRef 3]; currentPageIndex := -1; historyLock := false |} = noRef ∧
  canGoBackward
    {| list_ := [liveRef 3]; currentPageIndex := -1; historyLock := false |} = false ∧
  canGoForward
    {| list_ := [liveRef 3]; currentPageIndex := -1; historyLock := false |} = true.
Proof.
  assert (2 < 3) as Hturns by lia.
  split; [apply liveRef_is_not_null|]. split; [exact Hturns|].
  apply (X23_goBack_over_deleted_pages 3 1 (liveRef 3) [] false
           (liveRef_is_not_null 3) Hturns).
Defined.

Lemma one_is_not_two : 1 ≠ 2.
Proof. done. Qed.

Lemma X24_witness :
  list_ freshHistory !! 0 = Some (liveRef 1) ∧
  list_ freshHistory !! 1 = Some (liveRef 2) ∧ 1 ≠ 2 ∧ 0 < 1 ∧
  goBack 1 freshHistory =
    Some (liveRef 1,
          {| list_ := list_ freshHistory; currentPageIndex := Z.of_nat 0;
             historyLock := false |}, true) ∧
  goForward 1
    {| list_ := list_ freshHistory; currentPageIndex := Z.of_nat 0; historyLock := false |} =
    Some (liveRef 2, freshHistory, true).
Proof.
  assert (0 < 1) as Hturns by lia.
  split; [reflexivity|]. split; [reflexivity|]. split; [apply one_is_not_two|].
  split; [exact Hturns|].
  apply (X24_one_step_back_and_forth 1 (list_ freshHistory) 0 1 2 false
           eq_refl eq_refl one_is_not_two Hturns).
Defined.

Lemma X25_witness :
  goBack 3 staleHistory =
    Some (noRef,
          {| list_ := [liveRef 3]; currentPageIndex := -1; historyLock := false |},
          true) ∧
  [liveRef 3] `sublist_of` list_ staleHistory ∧
  (noRef = noRef ∨ noRef ∈ list_ staleHistory).
Proof.
  split; [reflexivity|].
  apply (X25_navigation_only_drops_entries 3 staleHistory noRef
           {| list_ := [liveRef 3]; currentPageIndex := -1; historyLock := false |}
           true (or_introl eq_refl)).
Defined.

Lemma asciiChars_lower_twice (c : Z) :
  @toLowerCase asciiChars (@toLowerCase asciiChars c) = @toLowerCase asciiChars c.
Proof.
  simpl. destruct ((65 <=? c) && (c <=? 90))%Z eqn:Hc; [|by rewrite Hc].
  apply andb_true_iff in Hc as [?%Z.leb_le ?%Z.leb_le].
  destruct (Z.leb_spec (c + 32) 90); [lia|]. by rewrite andb_false_r.
Qed.

Lemma X26_witness :
  (length (bytesOf "P") ≤ 1 ∧
   @toLowerCamelCase asciiChars (bytesOf "P") = bytesOf "P") ∧
  ((∀ c, @toLowerCase asciiChars (@toLowerCase asciiChars c) =
         @toLowerCase asciiChars c) ∧
   @toLowerCamelCase asciiChars (@toLowerCamelCase asciiChars (bytesOf "PianoLayer")) =
   @toLowerCamelCase asciiChars (bytesOf "PianoLayer")).
Proof.
  assert (length (bytesOf "P") ≤ 1) as Hlen by (simpl; lia).
  split.
  - split; [exact Hlen|].
    apply (proj1 (proj2 (proj2 (@X26_toLowerCamelCase asciiChars (bytesOf "P")))) Hlen).
  - split; [apply asciiChars_lower_twice|].
    apply (proj2 (proj2 (proj2 (@X26_toLowerCamelCase asciiChars (bytesOf "PianoLayer"))))
             asciiChars_lower_twice).
Defined.

End MoreConcrete.
